(** * psycluster: the client-side models, the Results and FilePreview pages,
      and the command/event protocol they talk to.

    The development follows the TypeScript sources:
    - [Models]       src/lib/models.ts (types, step catalog, message table, channels)
    - [Results]      the Results page (run-name editing)
    - [FilePreview]  src/main-window/pages/FilePreview.tsx (column selection,
                     delimiter, Continue)
    - [Tracker], [Dispatcher], [Subscriptions]
                     the protocol components behind [Window], [Command] and
                     [CHANNELS], which these sources declare but do not
                     implement. *)

From stdpp Require Import gmap strings list sorting.
From Stdlib Require Import ZArith.

Set Default Proof Using "Type".
Open Scope Z_scope.

(** ** JavaScript values *)

(** A JS string is its sequence of UTF-16 code units; [.length] counts them. *)
Definition code_unit := N.
Definition jsstring := list code_unit.

(** A source literal (ASCII in this code base) as a JS string. *)
Definition lit (s : string) : jsstring :=
  Ascii.N_of_ascii <$> String.list_ascii_of_string s.

(** Truthiness of a [string | null]: [null] and the empty string are falsy. *)
Definition truthy (s : option jsstring) : bool :=
  match s with
  | Some (_ :: _) => true
  | _ => false
  end.

(** [a || b] on a [string | null] left operand with a string default. *)
Definition or_else (a : option jsstring) (b : jsstring) : jsstring :=
  match a with
  | Some (c :: s) => c :: s
  | _ => b
  end.

(** Result of running a handler: it returns, or a [TypeError] is thrown
    (property access on [undefined] / [null]). *)
Inductive outcome (A : Type) :=
  | Done (a : A)
  | TypeError.
Arguments Done {A} a.
Arguments TypeError {A}.

(** JS numbers. The code modelled here only compares and subtracts them, so
    they stay abstract: nothing below depends on how doubles round. *)
Class JsNumber := {
  number : Type;
  num_le : relation number;
  num_sub : number → number → number;
  num_le_trans :: Transitive num_le;
}.

(** Integer clock ticks, used for concrete runs. *)
Definition tick_numbers : JsNumber :=
  {| number := Z; num_le := Z.le; num_sub := Z.sub;
     num_le_trans := Z.le_preorder.(PreOrder_Transitive) |}.

Definition tick (z : Z) : @number tick_numbers := z.

(** ** src/lib/models.ts *)
Module Models.

Definition UUID := string.

(** [type Action] *)
Inductive Action :=
  | set_file_path | get_file_path | set_file_settings
  | set_algorithm_settings | run_clustering | get_runs | get_current_run
  | set_run_id | reset_run_id | update_run_name | get_cluster_assignments
  | get_cluster_similarities | update_cluster_name | delete_run
  | get_outliers | get_mergers.

(** [type ClusteringStep], members in declaration order. *)
Module ClusteringStep.
Inductive t :=
  | start | process_input_file | load_model | embed_responses
  | detect_outliers | auto_cluster_count | cluster | merge | save.

#[global] Instance eq_dec : EqDecision t.
Proof. solve_decision. Defined.

(** The string literal each member stands for. *)
Definition name (s : t) : string :=
  match s with
  | start => "start"
  | process_input_file => "process_input_file"
  | load_model => "load_model"
  | embed_responses => "embed_responses"
  | detect_outliers => "detect_outliers"
  | auto_cluster_count => "auto_cluster_count"
  | cluster => "cluster"
  | merge => "merge"
  | save => "save"
  end.

(** The members of the union, as declared. *)
Definition members : list t :=
  [start; process_input_file; load_model; embed_responses;
   detect_outliers; auto_cluster_count; cluster; merge; save].

(** Position of a member in the declaration. *)
Definition index (s : t) : nat :=
  match s with
  | start => 0 | process_input_file => 1 | load_model => 2
  | embed_responses => 3 | detect_outliers => 4
  | auto_cluster_count => 5 | cluster => 6 | merge => 7 | save => 8
  end%nat.
End ClusteringStep.

(** The [status] union of [ProgressMessage] / [ClusteringProgressMessage]. *)
Module Status.
Inductive t := todo | start | complete | error.

#[global] Instance eq_dec : EqDecision t.
Proof. solve_decision. Defined.

Definition name (s : t) : string :=
  match s with
  | todo => "todo" | start => "start"
  | complete => "complete" | error => "error"
  end.

Definition members : list t := [todo; start; complete; error].
End Status.

(** The string literal each [Action] stands for. *)
Definition action_name (a : Action) : string :=
  match a with
  | set_file_path => "set_file_path"
  | get_file_path => "get_file_path"
  | set_file_settings => "set_file_settings"
  | set_algorithm_settings => "set_algorithm_settings"
  | run_clustering => "run_clustering"
  | get_runs => "get_runs"
  | get_current_run => "get_current_run"
  | set_run_id => "set_run_id"
  | reset_run_id => "reset_run_id"
  | update_run_name => "update_run_name"
  | get_cluster_assignments => "get_cluster_assignments"
  | get_cluster_similarities => "get_cluster_similarities"
  | update_cluster_name => "update_cluster_name"
  | delete_run => "delete_run"
  | get_outliers => "get_outliers"
  | get_mergers => "get_mergers"
  end.

(** The [step] union of [interface ProgressMessage]:
    [ClusteringStep | Action | "init"]. *)
Inductive ProgressStep :=
  | pipeline_step (s : ClusteringStep.t)
  | action_step (a : Action)
  | init_step.

Definition progress_step_name (p : ProgressStep) : string :=
  match p with
  | pipeline_step s => ClusteringStep.name s
  | action_step a => action_name a
  | init_step => "init"
  end.

(** [interface FileSettings] *)
Record FileSettings := {
  delimiter : jsstring;
  has_header : bool;
  selected_columns : list Z;
}.

Section WithNumbers.
Context `{JsNumber}.

(** [interface ProgressMessage], the [data] of a [Message] of type
    "progress". *)
Record ProgressMessage := {
  pm_step : ProgressStep;
  pm_status : Status.t;
  pm_timestamp : number;
}.

(** [interface ClusteringProgressMessage] *)
Record ClusteringProgressMessage := {
  step : ClusteringStep.t;
  status : Status.t;
  timestamp : number;
}.

(** [interface Run] *)
Record Run := {
  id : UUID;
  name : jsstring;
  file_path : jsstring;
  output_file_path : jsstring;
  assignments_file_path : jsstring;
  created_at : number;
  file_settings : jsstring;
  algorithm_settings : jsstring;
}.

(** [interface Timesteps]; the [steps] record keeps its key order. *)
Record Timesteps := {
  ts_id : UUID;
  total_duration : number;
  steps : list (ClusteringStep.t * number);
}.

(** [interface CurrentRunMessage] *)
Record CurrentRunMessage := {
  run : Run;
  timesteps : Timesteps;
}.

(** [type ClusterCount = AutomaticClusterCount | ManualClusterCount] *)
Inductive ClusterCount :=
  | AutomaticClusterCount (max_clusters : number)
  | ManualClusterCount (cluster_count : number).

(** [interface OutlierDetectionSettings] *)
Record OutlierDetectionSettings := {
  nearest_neighbors : number;
  z_score_threshold : number;
}.

(** [interface AgglomerativeClusteringSettings] *)
Record AgglomerativeClusteringSettings := {
  similarity_threshold : number;
}.

(** [interface AlgorithmSettings] *)
Record AlgorithmSettings := {
  method : ClusterCount;
  excluded_words : list jsstring;
  seed : option number;
  outlier_detection : option OutlierDetectionSettings;
  agglomerative_clustering : option AgglomerativeClusteringSettings;
}.

(** The [data] member of [interface Command]: one shape per alternative of
    the union, or no [data] at all. *)
Inductive CommandData :=
  | no_data
  | data_null
  | data_filePath (filePath : jsstring)
  | data_FileSettings (settings : FileSettings)
  | data_AlgorithmSettings (settings : AlgorithmSettings)
  | data_runId (runId : UUID)
  | data_runId_name (runId : UUID) (name : jsstring)
  | data_ClusterNamePayload (clusterId : UUID) (name : jsstring).

(** [interface Command] *)
Record Command := {
  action : Action;
  data : CommandData;
}.

(** [interface Response], without the object back-references
    ([cluster], [outlier_statistic]) that mirror the id fields. Field names
    shared with another interface carry a prefix, here and below. *)
Record Response := {
  r_id : UUID;
  text : jsstring;
  embedding : option (list number);
  is_outlier : bool;
  r_similarity : option number;
  r_count : number;
  cluster_id : option UUID;
}.

(** [interface SimilarityPair], ids only. *)
Record SimilarityPair := {
  sp_id : UUID;
  sp_similarity : number;
  cluster_1_id : UUID;
  cluster_2_id : UUID;
  sp_merger_id : UUID;
  sp_result_id : UUID;
}.

(** [interface _ClusterAssignmentDetail] *)
Record _ClusterAssignmentDetail := {
  cad_id : UUID;
  cad_index : number;
  cad_name : jsstring;
  cad_is_merger_result : bool;
  cad_responses : list Response;
  cad_count : number;
}.

(** [interface ClusterAssignmentsMessage] *)
Record ClusterAssignmentsMessage := {
  cam_clusters : list _ClusterAssignmentDetail;
}.

(** [interface _ClusterSimilarityDetail] *)
Record _ClusterSimilarityDetail := {
  csd_id : UUID;
  csd_index : number;
  csd_name : jsstring;
  csd_is_merger_result : bool;
  csd_responses : list Response;
  csd_similarity_pairs : list (UUID * number);
  csd_count : number;
}.

(** [interface ClusterSimilaritiesMessage] *)
Record ClusterSimilaritiesMessage := {
  csm_clusters : list _ClusterSimilarityDetail;
}.

(** [interface _OutlierDetail] *)
Record _OutlierDetail := {
  od_id : UUID;
  od_response : Response;
  od_similarity : number;
}.

(** [interface OutliersMessage] *)
Record OutliersMessage := {
  outliers : list _OutlierDetail;
  om_threshold : number;
}.

(** [interface _ClusterMergerDetail] *)
Record _ClusterMergerDetail := {
  cmd_id : UUID;
  cmd_index : number;
  cmd_name : jsstring;
  cmd_responses : list Response;
  cmd_count : number;
}.

(** [interface _MergerDetail] *)
Record _MergerDetail := {
  md_id : UUID;
  md_name : jsstring;
  md_clusters : list _ClusterMergerDetail;
  md_similarity_pairs : list SimilarityPair;
}.

(** [interface MergersMessage] *)
Record MergersMessage := {
  mergers : list _MergerDetail;
  mm_threshold : number;
}.
End WithNumbers.

(** [interface AppSettings] *)
Record AppSettings := {
  darkMode : bool;
  tutorialMode : bool;
}.

(** [const progressionMessages], entries in the order of the object literal. *)
Definition progressionMessages : list (string * string) :=
  [ ("start", "Starting clustering process");
    ("process_input_file", "Reading input file");
    ("load_model", "Loading language model");
    ("embed_responses", "Embedding responses");
    ("detect_outliers", "Detecting outliers");
    ("auto_cluster_count", "Determining cluster count");
    ("cluster", "Clustering");
    ("merge", "Merging clusters");
    ("save", "Saving results") ].

(** The nine [on...] subscription functions of [interface Window], each
    labelled by what its callback receives. *)
Inductive Channel :=
  | SETTINGS_CHANGED | PATH_RESPONSE | CLUSTERING_PROGRESS_UPDATE
  | ALL_RUNS_RESPONSE | CURRENT_RUN_RESPONSE
  | CURRENT_CLUSTER_ASSIGNMENTS_RESPONSE
  | CURRENT_CLUSTER_SIMILARITIES_RESPONSE
  | CURRENT_OUTLIERS_RESPONSE | CURRENT_MERGERS_RESPONSE.

#[global] Instance Channel_eq_dec : EqDecision Channel.
Proof. solve_decision. Defined.

(** What the callback of each [on...] function of [interface Window] is
    declared to receive: [settings.onSettingsChanged], [file.onReceivePath],
    [progress.onClusteringUpdate] and the six [database.onReceive...], in
    the order of the constructors. *)
Definition callback_payload `{JsNumber} (c : Channel) : Type :=
  match c with
  | SETTINGS_CHANGED => AppSettings
  | PATH_RESPONSE => jsstring
  | CLUSTERING_PROGRESS_UPDATE => ClusteringProgressMessage
  | ALL_RUNS_RESPONSE => list Run
  | CURRENT_RUN_RESPONSE => CurrentRunMessage
  | CURRENT_CLUSTER_ASSIGNMENTS_RESPONSE => ClusterAssignmentsMessage
  | CURRENT_CLUSTER_SIMILARITIES_RESPONSE => ClusterSimilaritiesMessage
  | CURRENT_OUTLIERS_RESPONSE => OutliersMessage
  | CURRENT_MERGERS_RESPONSE => MergersMessage
  end.

End Models.

(** ** The Results page: editing the run name *)
Module Results.
Import Models.

(** Calls the page makes on [window.database]. *)
Inductive IpcCall :=
  | database_updateRunName (runId : UUID) (name : jsstring)
  | database_requestCurrentRun.

(** [function validateRunName(newName: string)] *)
Definition validateRunName (newName : jsstring) : bool :=
  if negb (truthy (Some newName)) then false
  else if (255 <? Z.of_nat (length newName)) then false
  else true.

Section WithNumbers.
Context `{JsNumber}.

(** The [useState] cells of the component. *)
Record State := {
  run : option Run;
  timesteps : option Timesteps;
  runName : option jsstring;
  runNameInput : option jsstring;
  isEditing : bool;
  isValidRunName : bool;
}.

Definition initial : State :=
  {| run := None; timesteps := None; runName := None;
     runNameInput := None; isEditing := false; isValidRunName := false |}.

(** [const updateRunName = (newName: string) => ...]: the gate is the
    [isValidRunName] cell, not a fresh validation of [newName]. *)
Definition updateRunName (newName : jsstring) (st : State)
  : outcome (State * list IpcCall) :=
  if negb (isValidRunName st) then Done (st, [])
  else
    match run st with
    | None => TypeError
    | Some r =>
        Done ({| run := run st; timesteps := timesteps st;
                 runName := Some newName;
                 runNameInput := runNameInput st;
                 isEditing := false;
                 isValidRunName := isValidRunName st |},
              [database_updateRunName (id r) newName])
    end.

(** What the user and the broker can do to the mounted page. *)
Inductive Event :=
  | ReceiveCurrentRun (m : CurrentRunMessage)
  | ClickPencil
  | Change (value : jsstring)
  | KeyEnter
  | KeyEscape
  | ClickSave.

(** The name input and the Save button exist only while a run is loaded
    and [isEditing] holds; the pencil only while it does not. *)
Definition editing (st : State) : bool :=
  bool_decide (is_Some (run st)) && isEditing st.

(** One event; [None] when the element it needs is not rendered or is
    disabled. *)
Definition handle (e : Event) (st : State)
  : option (outcome (State * list IpcCall)) :=
  match e with
  | ReceiveCurrentRun m =>
      Some (Done ({| run := Some (Models.run m);
                     timesteps := Some (Models.timesteps m);
                     runName := Some (name (Models.run m));
                     runNameInput := Some (name (Models.run m));
                     isEditing := isEditing st;
                     isValidRunName := isValidRunName st |}, []))
  | ClickPencil =>
      if bool_decide (is_Some (run st)) && negb (isEditing st) then
        Some (Done ({| run := run st; timesteps := timesteps st;
                       runName := runName st;
                       runNameInput := runNameInput st;
                       isEditing := true;
                       isValidRunName := isValidRunName st |}, []))
      else None
  | Change value =>
      if editing st then
        Some (Done ({| run := run st; timesteps := timesteps st;
                       runName := runName st;
                       runNameInput := Some value;
                       isEditing := isEditing st;
                       isValidRunName := validateRunName value |}, []))
      else None
  | KeyEnter =>
      if editing st then
        match runNameInput st with
        | Some v => Some (updateRunName v st)
        | None => None
        end
      else None
  | KeyEscape =>
      if editing st then
        match run st with
        | Some r =>
            Some (Done ({| run := run st; timesteps := timesteps st;
                           runName := runName st;
                           runNameInput := Some (name r);
                           isEditing := false;
                           isValidRunName := isValidRunName st |}, []))
        | None => None
        end
      else None
  | ClickSave =>
      if editing st && isValidRunName st then
        match runNameInput st with
        | Some v => Some (updateRunName v st)
        | None => None
        end
      else None
  end.

(** A session: events in order, calls accumulated; stops at the first
    event that cannot happen or throws. *)
Fixpoint session (es : list Event) (st : State)
  : option (State * list IpcCall) :=
  match es with
  | [] => Some (st, [])
  | e :: es' =>
      match handle e st with
      | Some (Done (st', calls)) =>
          match session es' st' with
          | Some (st'', calls') => Some (st'', calls ++ calls')
          | None => None
          end
      | _ => None
      end
  end.





End WithNumbers.
End Results.


(** ** src/main-window/pages/FilePreview.tsx *)
Module FilePreview.
Import Models.

(** The [useState] cells of the component. *)
Record State := {
  filePath : option jsstring;
  hasHeader : bool;
  delimiter : option jsstring;
  selectedColumns : list Z;
  previewData : list (list jsstring);
}.

Definition exampleLineCount : nat := 10.

(** [const displayData = hasHeader ? previewData.slice(1)
                                   : previewData.slice(0, exampleLineCount)] *)
Definition displayData (st : State) : list (list jsstring) :=
  if hasHeader st then drop 1 (previewData st)
  else take exampleLineCount (previewData st).

(** [const headers = hasHeader ? previewData[0] : []]; [None] is the
    [undefined] read from an empty [previewData]. *)
Definition headers (st : State) : option (list jsstring) :=
  if hasHeader st then previewData st !! 0%nat else Some [].

(** [const columnCount = displayData.length > 0 ? displayData[0].length : 0] *)
Definition columnCount (st : State) : nat :=
  match displayData st with
  | row :: _ => length row
  | [] => 0%nat
  end.

Definition setSelectedColumns (cols : list Z) (st : State) : State :=
  {| filePath := filePath st; hasHeader := hasHeader st;
     delimiter := delimiter st; selectedColumns := cols;
     previewData := previewData st |}.

(** [const toggleColumn = (index: number) => ...] *)
Definition toggleColumn (index : Z) (st : State) : State :=
  if bool_decide (index ∈ selectedColumns st) then
    setSelectedColumns (filter (λ col, col ≠ index) (selectedColumns st)) st
  else
    setSelectedColumns (selectedColumns st ++ [index]) st.

(** [[...Array(n).keys()]] *)
Definition keys (n : nat) : list Z := Z.of_nat <$> seq 0 n.

(** The "Toggle all" button. [headers.length] is only evaluated when nothing
    is selected, and throws when [headers] is [undefined]. *)
Definition toggleAll (st : State) : outcome State :=
  if bool_decide (length (selectedColumns st) = 0%nat) then
    match headers st with
    | Some hs => Done (setSelectedColumns (keys (length hs)) st)
    | None => TypeError
    end
  else Done (setSelectedColumns [] st).

(** The "Continue" button: rendered once a file path is known, disabled while
    no column is selected; its click sends the settings through
    [window.file.setSettings]. [None]: no click can happen. *)
Definition continueClick (st : State) : option FileSettings :=
  if negb (truthy (filePath st)) then None
  else if bool_decide (Z.of_nat (length (selectedColumns st)) ≤ 0) then None
  else
    Some {| Models.delimiter := or_else (delimiter st) (lit ",");
            has_header := hasHeader st;
            selected_columns := selectedColumns st |}.

End FilePreview.


(** ** FilePreview: loading the preview *)
Module PreviewData.
Import Models FilePreview.

(** [input.split("\n")]: the segments between line feeds; never empty. *)
Fixpoint split_lines (input : jsstring) : list jsstring :=
  match input with
  | [] => [[]]
  | c :: rest =>
      if bool_decide (c = 10%N) then [] :: split_lines rest
      else
        match split_lines rest with
        | line :: lines => (c :: line) :: lines
        | [] => [[c]]
        end
  end.

(** [parsedData[i][j]]; [None] is [undefined] (row too short). The row
    itself always exists where the loops below read it. *)
Definition cell (parsedData : list (list jsstring)) (i j : nat)
  : option jsstring :=
  parsedData !! i ≫= (.!! j).

(** The two arrays the fill loops work on. *)
Record FillState := {
  parsedData : list (list jsstring);
  fillIndexes : list Z;
}.

(** [for (let k = start; k >= 0; k--) if (parsedData[k][j]) ... break]:
    the row the loop stops at, if it stops at one. *)
Fixpoint scan (data : list (list jsstring)) (j : nat) (k : nat) : option nat :=
  if truthy (cell data k j) then Some k
  else
    match k with
    | O => None
    | S k' => scan data j k'
    end.

(** The same loop started from [fillIndexes[j]]: [undefined >= 0] and a
    negative start end it at once. *)
Definition scan_from (data : list (list jsstring)) (j : nat)
    (start : option Z) : option nat :=
  match start with
  | Some k => if bool_decide (0 ≤ k) then scan data j (Z.to_nat k) else None
  | None => None
  end.

(** The body of the [j] loop for one cell. *)
Definition visit (i j : nat) (s : FillState) : FillState :=
  if truthy (cell (parsedData s) i j) then s
  else
    match scan_from (parsedData s) j (fillIndexes s !! j) with
    | Some k =>
        {| parsedData :=
             alter (λ row, <[j := default [] (cell (parsedData s) k j)]> row)
               i (parsedData s);
           fillIndexes := <[j := Z.of_nat k - 1]> (fillIndexes s) |}
    | None => s
    end.

(** [for (let j = 0; j < parsedData[i].length; j++)]; the row length does
    not change while the loop runs. *)
Definition fill_row (i : nat) (s : FillState) : FillState :=
  foldl (λ s j, visit i j s) s
    (seq 0 (length (default [] (parsedData s !! i)))).

(** The fill loops of [fetchPreviewData], from
    [const fillIndexes = Array(parsedData.length).fill(parsedData.length - 1)]
    to the end of the [i] loop; the result is [parsedData] as mutated. *)
Definition fill (data : list (list jsstring)) : list (list jsstring) :=
  parsedData
    (foldl (λ s i, fill_row i s)
       {| parsedData := data;
          fillIndexes := replicate (length data) (Z.of_nat (length data) - 1) |}
       (seq 0 (length data))).

(** What the loops keep true of the two arrays, against the data they
    started from. *)
Definition fill_related (orig : list (list jsstring)) (s : FillState)
  : Prop :=
  length (fillIndexes s) = length orig
  ∧ length <$> parsedData s = length <$> orig
  ∧ ∀ i j,
      cell (parsedData s) i j = cell orig i j
      ∨ ((j < length orig)%nat
         ∧ cell orig i j = Some []
         ∧ ∃ k v, cell orig k j = Some v ∧ v ≠ []
                  ∧ cell (parsedData s) i j = Some v).

(** Column [j] has not been touched yet: its bookkeeping slot still holds
    the last row index and its cells are the original ones. *)
Definition column_fresh (orig : list (list jsstring)) (j : nat)
    (s : FillState) : Prop :=
  fillIndexes s !! j = Some (Z.of_nat (length orig) - 1)
  ∧ ∀ i, cell (parsedData s) i j = cell orig i j.

Definition setPreviewData (data : list (list jsstring)) (st : State) : State :=
  {| filePath := filePath st; hasHeader := hasHeader st;
     delimiter := delimiter st; selectedColumns := selectedColumns st;
     previewData := data |}.

Definition setDelimiter (d : option jsstring) (st : State) : State :=
  {| filePath := filePath st; hasHeader := hasHeader st;
     delimiter := d; selectedColumns := selectedColumns st;
     previewData := previewData st |}.

Section WithFile.
(** [window.electron.readFile]: the text, or [None] when the promise
    rejects. [parseCSVLine] and [findDelimiter] come from [lib/utils]; they
    may throw. *)
Context (readFile : jsstring → option jsstring).
Context (parseCSVLine : jsstring → jsstring → outcome (list jsstring)).
Context (findDelimiter : list jsstring → outcome (option jsstring)).

(** [lines.slice(0, lines.length > 100 ? 100 : lines.length)
        .map((line) => parseCSVLine(line, delimiter))] *)
Fixpoint parse_lines (delim : jsstring) (lines : list jsstring)
  : outcome (list (list jsstring)) :=
  match lines with
  | [] => Done []
  | line :: rest =>
      match parseCSVLine line delim with
      | TypeError => TypeError
      | Done row =>
          match parse_lines delim rest with
          | TypeError => TypeError
          | Done rows => Done (row :: rows)
          end
      end
  end.

(** The [fetchPreviewData] effect. An exception anywhere in the [try] block
    is caught and logged; the state stays as it was. *)
Definition fetchPreviewData (st : State) : State :=
  match delimiter st, filePath st with
  | Some (d :: ds), Some (p :: ps) =>
      match readFile (p :: ps) with
      | None => st
      | Some input =>
          let lines := split_lines input in
          match parse_lines (d :: ds)
                  (take (if bool_decide (100 < length lines)%nat
                         then 100%nat else length lines) lines) with
          | TypeError => st
          | Done parsed =>
              setPreviewData (take (exampleLineCount + 1) (fill parsed)) st
          end
      end
  | _, _ => st
  end.

(** The [findBestDelimiter] effect. *)
Definition findBestDelimiter (st : State) : State :=
  match filePath st with
  | Some (p :: ps) =>
      match readFile (p :: ps) with
      | None => st
      | Some input =>
          match findDelimiter (split_lines input) with
          | TypeError => st
          | Done best => setDelimiter best st
          end
      end
  | _ => st
  end.
End WithFile.

End PreviewData.

(** ** FilePreview: the page as a whole *)
Module FilePreviewPage.
Import Models FilePreview PreviewData.

(** The [useState] initial values. *)
Definition initial : State :=
  {| filePath := None; hasHeader := true; delimiter := None;
     selectedColumns := []; previewData := [] |}.

(** The title a [ColumnHeader] shows: a header cell, or [`Column ${index}`]. *)
Inductive Title :=
  | HeaderText (header : jsstring)
  | ColumnNumber (index : nat).

(** The props of one rendered [ColumnHeader]; its click calls
    [toggleColumn(index)]. *)
Record ColumnHeaderProps := {
  index : nat;
  title : Title;
  isOn : bool;
}.

(** The [<th>] cells of the table head: one per header cell when there is a
    header row (none when [headers] is [undefined]), [columnCount] numbered
    ones otherwise. *)
Definition columnHeaders (st : State) : list ColumnHeaderProps :=
  if hasHeader st then
    match headers st with
    | Some hs =>
        imap (λ i header,
                {| index := i; title := HeaderText header;
                   isOn := bool_decide (Z.of_nat i ∈ selectedColumns st) |}) hs
    | None => []
    end
  else
    (λ i, {| index := i; title := ColumnNumber i;
             isOn := bool_decide (Z.of_nat i ∈ selectedColumns st) |})
      <$> seq 0 (columnCount st).

(** The counter next to Continue: the number shown, and whether the word is
    "column" (singular). *)
Definition selectedCounter (st : State) : nat * bool :=
  (length (selectedColumns st),
   bool_decide (length (selectedColumns st) = 1%nat)).

Section WithEnvironment.
Context `{JsNumber}.
Context (readFile : jsstring → option jsstring).
Context (parseCSVLine : jsstring → jsstring → outcome (list jsstring)).
Context (findDelimiter : list jsstring → outcome (option jsstring)).
(** [JSON.parse(run.file_settings) as FileSettings]; throws on bad input. *)
Context (parseFileSettings : jsstring → outcome FileSettings).

(** The callback given to [window.database.onReceiveCurrentRun]. *)
Definition onReceiveCurrentRun (received : option Run) (st : State)
  : outcome State :=
  match received with
  | None => Done st
  | Some r =>
      match parseFileSettings (file_settings r) with
      | TypeError => TypeError
      | Done settings =>
          Done {| filePath := Some (file_path r);
                  hasHeader := has_header settings;
                  delimiter := Some (Models.delimiter settings);
                  selectedColumns := selected_columns settings;
                  previewData := previewData st |}
      end
  end.

(** What can happen to the mounted page: the two subscriptions firing, the
    two file effects running, and the user acting on the controls. *)
Inductive Event :=
  | ReceivePath (path : jsstring)
  | ReceiveCurrentRun (received : option Run)
  | RunFindBestDelimiter
  | RunFetchPreviewData
  | SwitchHeader (checked : bool)
  | ChangeDelimiter (value : jsstring)
  | ClickColumn (i : nat)
  | ClickToggleAll
  | ClickContinue.

(** The controls are rendered only once a file path is known. *)
Definition controls_shown (st : State) : bool := truthy (filePath st).

(** One event: the next state and what is sent through
    [window.file.setSettings]. [None]: the event cannot happen (control not
    rendered or disabled). A handler that throws leaves the state alone. *)
Definition handle (e : Event) (st : State)
  : option (State * list FileSettings) :=
  match e with
  | ReceivePath path =>
      Some ({| filePath := Some path; hasHeader := hasHeader st;
               delimiter := delimiter st;
               selectedColumns := selectedColumns st;
               previewData := previewData st |}, [])
  | ReceiveCurrentRun received =>
      match onReceiveCurrentRun received st with
      | Done st' => Some (st', [])
      | TypeError => Some (st, [])
      end
  | RunFindBestDelimiter => Some (findBestDelimiter readFile findDelimiter st, [])
  | RunFetchPreviewData => Some (fetchPreviewData readFile parseCSVLine st, [])
  | SwitchHeader checked =>
      if controls_shown st then
        Some ({| filePath := filePath st; hasHeader := checked;
                 delimiter := delimiter st;
                 selectedColumns := selectedColumns st;
                 previewData := previewData st |}, [])
      else None
  | ChangeDelimiter value =>
      if controls_shown st then Some (setDelimiter (Some value) st, [])
      else None
  | ClickColumn i =>
      if controls_shown st && bool_decide (i < length (columnHeaders st))%nat
      then Some (toggleColumn (Z.of_nat i) st, [])
      else None
  | ClickToggleAll =>
      if controls_shown st then
        match toggleAll st with
        | Done st' => Some (st', [])
        | TypeError => Some (st, [])
        end
      else None
  | ClickContinue =>
      match continueClick st with
      | Some settings => Some (st, [settings])
      | None => None
      end
  end.

(** Events in order; everything sent, in order. *)
Fixpoint session (es : list Event) (st : State)
  : option (State * list FileSettings) :=
  match es with
  | [] => Some (st, [])
  | e :: es' =>
      match handle e st with
      | Some (st', sent) =>
          match session es' st' with
          | Some (st'', sent') => Some (st'', sent ++ sent')
          | None => None
          end
      | None => None
      end
  end.

(** A column list as the page itself produces it: whole indices from zero
    up, none twice. *)
Definition tidy_columns (cols : list Z) : Prop :=
  NoDup cols ∧ Forall (λ c, 0 ≤ c) cols.

(** The stored settings the broker hands back have tidy columns. *)
Definition brings_tidy_columns (e : Event) : Prop :=
  match e with
  | ReceiveCurrentRun (Some r) =>
      ∀ settings, parseFileSettings (file_settings r) = Done settings →
                  tidy_columns (selected_columns settings)
  | _ => True
  end.

End WithEnvironment.

(** The preview never holds more than eleven rows and the selection stays
    tidy. *)
Definition page_invariant (st : State) : Prop :=
  (length (previewData st) ≤ 11)%nat ∧ tidy_columns (selectedColumns st).

End FilePreviewPage.

(** ** The Results page: the Run Duration card *)
Module ResultsView.
Import Models.

(** [progressionMessages[step]]: the first entry under the step's name. *)
Definition message_of (s : ClusteringStep.t) : option string :=
  snd <$> head (filter (λ e, e.1 = ClusteringStep.name s) progressionMessages).

(** All the handlers of a [.map] callback, in order; the first throw wins. *)
Fixpoint collect {A} (results : list (outcome A)) : outcome (list A) :=
  match results with
  | [] => Done []
  | TypeError :: _ => TypeError
  | Done a :: rest =>
      match collect rest with
      | Done l => Done (a :: l)
      | TypeError => TypeError
      end
  end.

Section WithNumbers.
Context `{JsNumber}.
(** [iterateRecord] comes from [lib/utils]; it turns the [steps] record into
    an array of [[step, timestamp]] pairs. [share] is
    [(duration * 100) / total] on JS numbers. *)
Context (iterateRecord : list (ClusteringStep.t * number)
                         → list (ClusteringStep.t * number)).
Context (share : number → number → number).

(** One row of the card: the label, the duration handed to [formatTime],
    and the [value] and [max] of the [Progress] bar. *)
Record DurationRow := {
  key : ClusteringStep.t;
  label : option string;
  duration : number;
  value : number;
  max : number;
}.

(** The callback of [iterateRecord(timesteps.steps).map(...)]: nothing for
    the [start] entry; for any other entry a row measured against the entry
    before it. [iterateRecord(...)[index - 1]] is [undefined] at index 0, and
    reading [[1]] of it throws. *)
Definition durationRow (ts : Timesteps) (index : nat)
    (entry : ClusteringStep.t * number) : outcome (option DurationRow) :=
  if bool_decide (entry.1 = ClusteringStep.start) then Done None
  else
    match index with
    | O => TypeError
    | S before =>
        match iterateRecord (steps ts) !! before with
        | Some previous =>
            Done (Some {| key := entry.1;
                          label := message_of entry.1;
                          duration := num_sub entry.2 previous.2;
                          value := share (num_sub entry.2 previous.2)
                                         (total_duration ts);
                          max := total_duration ts |})
        | None => TypeError
        end
    end.

(** The rows of the Run Duration card. *)
Definition durationRows (ts : Timesteps)
  : outcome (list (option DurationRow)) :=
  collect (imap (durationRow ts) (iterateRecord (steps ts))).

End WithNumbers.
End ResultsView.

(** ** src/lib/models.ts: the channel tables *)
Module Channels.

(** [const CHANNEL_TYPES] *)
Definition CHANNEL_TYPES : list (string * string) :=
  [ ("ELECTRON", "electron"); ("SETTINGS", "settings"); ("FILE", "file");
    ("ALGORITHM", "algorithm"); ("PROGRESS", "progress");
    ("DATABASE", "database"); ("STATE", "state") ].

(** [const CHANNELS], group by group. *)
Definition CHANNELS : list (string * list (string * string)) :=
  [ ("ELECTRON",
     [ ("READ_FILE", "electron:read-file");
       ("GET_LOGS_PATH", "electron:get-logs-path");
       ("SHOW_ITEM_IN_FOLDER", "electron:show-item-in-folder");
       ("GET_LOCALE", "electron:get-locale");
       ("OPEN_URL", "electron:open-url");
       ("SET_TITLE_BAR_MASK", "electron:set-title-bar-mask") ]);
    ("SETTINGS",
     [ ("GET_ALL", "settings:get-all");
       ("SET_DARK_MODE", "settings:set-dark-mode");
       ("SET_TUTORIAL_MODE", "settings:set-tutorial-mode");
       ("SETTINGS_CHANGED", "settings:settings-changed") ]);
    ("FILE",
     [ ("SET_PATH", "file:set-path");
       ("PATH_REQUEST", "file:get-path");
       ("PATH_RESPONSE", "file:path");
       ("SET_SETTINGS", "file:set-settings");
       ("EXAMPLE_FILE_PATH", "file:example-file-path") ]);
    ("ALGORITHM",
     [ ("SET_SETTINGS", "algorithm:set-settings");
       ("RUN_CLUSTERING", "algorithm:run-clustering") ]);
    ("CLUSTERING_PROGRESS",
     [ ("UPDATE", "cluster-progress:update") ]);
    ("DATABASE",
     [ ("ALL_RUNS_REQUEST", "database:all-runs-request");
       ("ALL_RUNS_RESPONSE", "database:all-runs-response");
       ("CURRENT_RUN_REQUEST", "database:current-run-request");
       ("CURRENT_RUN_RESPONSE", "database:current-run-response");
       ("UPDATE_RUN_NAME", "database:update-run-name");
       ("CURRENT_CLUSTER_ASSIGNMENTS_REQUEST", "database:current-clusters-request");
       ("CURRENT_CLUSTER_ASSIGNMENTS_RESPONSE", "database:current-clusters-response");
       ("CURRENT_CLUSTER_SIMILARITIES_REQUEST",
        "database:current-cluster-similarities-request");
       ("CURRENT_CLUSTER_SIMILARITIES_RESPONSE",
        "database:current-cluster-similarities-response");
       ("UPDATE_CLUSTER_NAME", "database:update-cluster-name");
       ("DELETE_RUN", "database:delete-run");
       ("CURRENT_OUTLIERS_REQUEST", "database:current-outliers-request");
       ("CURRENT_OUTLIERS_RESPONSE", "database:current-outliers-response");
       ("CURRENT_MERGERS_REQUEST", "database:current-mergers-request");
       ("CURRENT_MERGERS_RESPONSE", "database:current-mergers-response") ]);
    ("STATE",
     [ ("SET_RUN_ID", "state:set-run-id");
       ("RESET_RUN_ID", "state:reset-run-id") ]) ].

(** Every channel string of the table. *)
Definition channel_strings : list string :=
  CHANNELS ≫= (λ group, group.2.*2).

(** The part of a channel string before its first colon. *)
Fixpoint before_colon (s : string) : string :=
  match s with
  | EmptyString => EmptyString
  | String c rest =>
      if bool_decide (Ascii.N_of_ascii c = 58%N) then EmptyString
      else String c (before_colon rest)
  end.

(** The part of a channel string after its first colon. *)
Fixpoint after_colon (s : string) : string :=
  match s with
  | EmptyString => EmptyString
  | String c rest =>
      if bool_decide (Ascii.N_of_ascii c = 58%N) then rest
      else after_colon rest
  end.

End Channels.


(** ** The protocol components the client sources only declare *)

(** The pipeline progress tracker. *)
Module Tracker.
Import Models.

Section WithNumbers.
Context `{JsNumber}.

(** Modelled from the spec: the Pipeline Progress Tracker (section 4.3) runs
    in the broker process, whose code is not part of the client sources.
    Every step carries a status, all [todo] initially; the [complete]
    timestamps are kept in arrival order for the Timesteps record; [closed]
    marks a run ended by a protocol error or by the worker going away. *)
Record t := {
  statuses : list Status.t;
  completed : list (ClusteringStep.t * number);
  closed : bool;
}.

Definition initial : t :=
  {| statuses := replicate (length ClusteringStep.members) Status.todo;
     completed := []; closed := false |}.

Definition status_of (s : ClusteringStep.t) (tr : t) : Status.t :=
  default Status.todo (statuses tr !! ClusteringStep.index s).

(** Modelled from the spec: "a start event for step n may only be accepted
    if step n-1 has reached complete (or n is the first step)". *)
Definition predecessor_complete (s : ClusteringStep.t) (tr : t) : bool :=
  match ClusteringStep.index s with
  | O => true
  | S n => bool_decide (statuses tr !! n = Some Status.complete)
  end.

(** Modelled from the spec: the terminal states are [save] reaching
    [complete], or any step reaching [error]. *)
Definition succeeded (tr : t) : bool :=
  bool_decide (status_of ClusteringStep.save tr = Status.complete).

Definition failed (tr : t) : bool :=
  bool_decide (Status.error ∈ statuses tr).

Definition terminal (tr : t) : bool :=
  closed tr || failed tr || succeeded tr.

Definition set_status (s : ClusteringStep.t) (st : Status.t) (tr : t) : t :=
  {| statuses := <[ClusteringStep.index s := st]> (statuses tr);
     completed := completed tr; closed := closed tr |}.

Definition record_complete (s : ClusteringStep.t) (ts : number) (tr : t) : t :=
  {| statuses := statuses tr; completed := completed tr ++ [(s, ts)];
     closed := closed tr |}.

Definition close (tr : t) : t :=
  {| statuses := statuses tr; completed := completed tr; closed := true |}.

(** Modelled from the spec: the transition rule of section 4.3. For one
    step the only legal sequences are [todo -> start -> complete] and
    [todo -> start -> error]; steps are entered in catalog order; nothing is
    accepted once the run is over. [None] is a protocol error. *)
Definition accept (ev : ClusteringProgressMessage) (tr : t) : option t :=
  if terminal tr then None
  else
    match status ev with
    | Status.todo => None
    | Status.start =>
        if bool_decide (status_of (step ev) tr = Status.todo)
           && predecessor_complete (step ev) tr
        then Some (set_status (step ev) Status.start tr)
        else None
    | Status.complete =>
        if bool_decide (status_of (step ev) tr = Status.start)
        then Some (record_complete (step ev) (timestamp ev)
                     (set_status (step ev) Status.complete tr))
        else None
    | Status.error =>
        if bool_decide (status_of (step ev) tr = Status.start)
        then Some (set_status (step ev) Status.error tr)
        else None
    end.

(** Index of the step that was started last, if any step was. *)
Fixpoint last_started_from (i : nat) (sts : list Status.t) : option nat :=
  match sts with
  | [] => None
  | st :: rest =>
      match last_started_from (S i) rest with
      | Some j => Some j
      | None => if bool_decide (st ≠ Status.todo) then Some i else None
      end
  end.

(** Modelled from the spec: abnormal worker termination is "treated as an
    error at whichever step was last started" (section 5); the run is over
    either way. *)
Definition abort (tr : t) : t :=
  close
    {| statuses :=
         match last_started_from 0 (statuses tr) with
         | Some i => <[i := Status.error]> (statuses tr)
         | None => statuses tr
         end;
       completed := completed tr; closed := closed tr |}.

(** Modelled from the spec: "the Tracker derives the Timesteps record from
    the sequence of complete timestamps at persist time", with
    [total_duration] the last timestamp minus the first. Persist time is the
    terminal success state. *)
Definition timesteps (rid : UUID) (tr : t) : option Timesteps :=
  if succeeded tr && negb (closed tr) then
    match head (completed tr), last (completed tr) with
    | Some (_, t0), Some (_, tn) =>
        Some {| ts_id := rid; total_duration := num_sub tn t0;
                steps := completed tr |}
    | _, _ => None
    end
  else None.

(** Feeding a whole event sequence; [None] at the first protocol error. *)
Fixpoint feed (evs : list ClusteringProgressMessage) (tr : t) : option t :=
  match evs with
  | [] => Some tr
  | ev :: evs' =>
      match accept ev tr with
      | Some tr' => feed evs' tr'
      | None => None
      end
  end.

(** Where a run stands: [k] steps complete, and the next one not entered,
    entered, or failed. *)
Inductive phase := Idle | Running | Failed.

Definition shape_statuses (k : nat) (p : phase) : list Status.t :=
  replicate k Status.complete ++
  match p with
  | Idle => replicate (9 - k) Status.todo
  | Running => Status.start :: replicate (8 - k) Status.todo
  | Failed => Status.error :: replicate (8 - k) Status.todo
  end.

Definition in_shape (k : nat) (p : phase) (tr : t) : Prop :=
  (k ≤ 9)%nat ∧ (p ≠ Idle → (k < 9)%nat)
  ∧ statuses tr = shape_statuses k p
  ∧ closed tr = false.

(** Every timestamp on the left is at most every timestamp on the right. *)
Definition all_le (xs ys : list number) : Prop :=
  ∀ a b, a ∈ xs → b ∈ ys → num_le a b.

End WithNumbers.
End Tracker.

(** The command dispatcher. *)
Module Dispatcher.
Import Models.

(** Modelled from the spec: the conditions a command is rejected with
    (sections 4.2 and 7). *)
Inductive Condition := AlreadyRunning | InvalidState | ValidationError.

Section WithNumbers.
Context `{JsNumber}.

(** Modelled from the spec: the process-wide "pending run configuration". *)
Record Pending := {
  pending_path : option jsstring;
  pending_file_settings : option FileSettings;
  pending_algorithm_settings : option AlgorithmSettings;
}.

(** Persisted state and selection are served by read and mutation commands
    that never touch the run in flight; they stay abstract. *)
Context {DB Answer : Type}.
Context (serve : Command → DB → DB * Answer).
Context (new_id : DB → UUID).

(** Modelled from the spec: the Command Dispatcher (section 4.2) with the
    single-run mutual-exclusion flag of section 5. The broker code is not
    part of the client sources. [runs] holds the tracker of every run
    launched so far, newest first. *)
Record t := {
  in_flight : bool;
  runs : list Tracker.t;
  pending : Pending;
  db : DB;
}.

Definition initial (d0 : DB) : t :=
  {| in_flight := false; runs := [];
     pending := {| pending_path := None; pending_file_settings := None;
                   pending_algorithm_settings := None |};
     db := d0 |}.

(** What reaches the broker: a client command, a progress event from the
    worker, or the worker process going away. *)
Inductive Input :=
  | FromClient (c : Command)
  | FromWorker (ev : ClusteringProgressMessage)
  | WorkerExit.

(** What leaves the broker. *)
Inductive Output :=
  | Rejected (c : Condition)
  | Answered (a : Answer)
  | ToWorker (cfg : Pending)
  | ProgressBroadcast (ev : ClusteringProgressMessage)
  | PersistResult (ts : Timesteps)
  | ErrorBroadcast.

Definition set_pending (p : Pending) (d : t) : t :=
  {| in_flight := in_flight d; runs := runs d; pending := p; db := db d |}.

(** Modelled from the spec: file/settings commands persist into the pending
    configuration, and fail with [InvalidState] while a run is executing;
    a payload of the wrong shape is a validation error. *)
Definition configure (c : Command) (d : t) : t * list Output :=
  if in_flight d then (d, [Rejected InvalidState])
  else
    match action c, data c with
    | set_file_path, data_filePath p =>
        (set_pending {| pending_path := Some p;
                        pending_file_settings := pending_file_settings (pending d);
                        pending_algorithm_settings :=
                          pending_algorithm_settings (pending d) |} d, [])
    | set_file_settings, data_FileSettings fs =>
        (set_pending {| pending_path := pending_path (pending d);
                        pending_file_settings := Some fs;
                        pending_algorithm_settings :=
                          pending_algorithm_settings (pending d) |} d, [])
    | set_algorithm_settings, data_AlgorithmSettings a =>
        (set_pending {| pending_path := pending_path (pending d);
                        pending_file_settings := pending_file_settings (pending d);
                        pending_algorithm_settings := Some a |} d, [])
    | _, _ => (d, [Rejected ValidationError])
    end.

(** Modelled from the spec: [run_clustering] is accepted only when no run
    is executing; acceptance takes the flag, puts a fresh tracker in its
    initial state and forwards the accumulated settings to the worker;
    otherwise the command is rejected with [AlreadyRunning]. *)
Definition run_clustering_cmd (d : t) : t * list Output :=
  if in_flight d then (d, [Rejected AlreadyRunning])
  else
    ({| in_flight := true; runs := Tracker.initial :: runs d;
        pending := pending d; db := db d |},
     [ToWorker (pending d)]).

Definition handle_command (c : Command) (d : t) : t * list Output :=
  match action c with
  | run_clustering => run_clustering_cmd d
  | set_file_path | set_file_settings | set_algorithm_settings =>
      configure c d
  | _ =>
      let '(db', a) := serve c (db d) in
      ({| in_flight := in_flight d; runs := runs d; pending := pending d;
          db := db' |}, [Answered a])
  end.

(** Modelled from the spec: progress events are republished as they arrive;
    the flag is released on a terminal state; a result is persisted on
    success only; an out-of-order event is fatal to the current run and goes
    out on the error channel. *)
Definition handle_progress (ev : ClusteringProgressMessage) (d : t)
  : t * list Output :=
  match in_flight d, runs d with
  | true, tr :: rest =>
      match Tracker.accept ev tr with
      | Some tr' =>
          ({| in_flight := negb (Tracker.terminal tr'); runs := tr' :: rest;
              pending := pending d; db := db d |},
           ProgressBroadcast ev ::
           match Tracker.timesteps (new_id (db d)) tr' with
           | Some ts => [PersistResult ts]
           | None => []
           end)
      | None =>
          ({| in_flight := false; runs := Tracker.close tr :: rest;
              pending := pending d; db := db d |}, [ErrorBroadcast])
      end
  | _, _ => (d, [ErrorBroadcast])
  end.

(** Modelled from the spec: the flag is also released "on abnormal Worker
    termination". *)
Definition handle_exit (d : t) : t * list Output :=
  match in_flight d, runs d with
  | true, tr :: rest =>
      ({| in_flight := false; runs := Tracker.abort tr :: rest;
          pending := pending d; db := db d |}, [ErrorBroadcast])
  | _, _ => (d, [])
  end.

Definition step (i : Input) (d : t) : t * list Output :=
  match i with
  | FromClient c => handle_command c d
  | FromWorker ev => handle_progress ev d
  | WorkerExit => handle_exit d
  end.

(** The broker serialises its inputs: one after the other. *)
Fixpoint run (inputs : list Input) (d : t) : t * list Output :=
  match inputs with
  | [] => (d, [])
  | i :: rest =>
      let '(d', out) := step i d in
      let '(d'', out') := run rest d' in
      (d'', out ++ out')
  end.

(** A run holds the in-flight flag while its pipeline has not reached a
    terminal state. *)
Definition holders (d : t) : list Tracker.t :=
  filter (λ tr, Tracker.terminal tr = false) (runs d).

(** The flag is up exactly when the newest run has not reached a terminal
    state; every older run has. *)
Definition flag_matches_runs (d : t) : Prop :=
  if in_flight d then
    ∃ tr rest, runs d = tr :: rest
               ∧ Tracker.terminal tr = false
               ∧ Forall (λ r, Tracker.terminal r = true) rest
  else Forall (λ r, Tracker.terminal r = true) (runs d).

End WithNumbers.
End Dispatcher.

(** The subscription manager. *)
Module Subscriptions.
Import Models.

Section WithListeners.
Context {Listener : Type} {Payload : Channel → Type}.

(** The cancellation handle [subscribe] returns. *)
Definition Handle := nat.

(** Modelled from the spec: the Subscription Manager (section 4.4). The
    client sources only declare the [on...] functions, of type
    [(callback) => () => void]; the registration code is not among them.
    Listeners are kept per registration, in registration order. *)
Record t := {
  next : Handle;
  active : list (Handle * (Channel * Listener));
}.

Definition empty : t := {| next := 0%nat; active := [] |}.

(** Modelled from the spec: [subscribe(channel, listener) -> cancellation
    handle]. *)
Definition subscribe (ch : Channel) (l : Listener) (s : t) : Handle * t :=
  (next s, {| next := S (next s); active := active s ++ [(next s, (ch, l))] |}).

(** Modelled from the spec: invoking the cancellation handle ends the
    registration it was returned for. It cannot fail. *)
Definition cancel (h : Handle) (s : t) : t :=
  {| next := next s; active := filter (λ e, e.1 ≠ h) (active s) |}.

(** Handle [h] has been handed out and its registration is gone. *)
Definition cancelled (h : Handle) (s : t) : Prop :=
  (h < next s)%nat ∧ ∀ e, e ∈ active s → e.1 ≠ h.

(** Every registration carries a handle that was handed out. *)
Definition handles_issued (s : t) : Prop :=
  ∀ e, e ∈ active s → (e.1 < next s)%nat.

(** One call of one listener. *)
Record Delivery := {
  to : Handle;
  listener : Listener;
  on : Channel;
  payload : Payload on;
}.

(** Modelled from the spec: a broadcast is delivered once to every current
    registration on the channel (fan-out), with no replay. *)
Definition broadcast (ch : Channel) (p : Payload ch) (s : t)
  : list Delivery :=
  (λ e, {| to := e.1; listener := e.2.2; on := ch; payload := p |})
    <$> filter (λ e, e.2.1 = ch) (active s).

Inductive Op :=
  | Subscribe (ch : Channel) (l : Listener)
  | Cancel (h : Handle)
  | Broadcast (ch : Channel) (p : Payload ch).

Definition apply (o : Op) (s : t) : t * list Delivery :=
  match o with
  | Subscribe ch l => ((subscribe ch l s).2, [])
  | Cancel h => (cancel h s, [])
  | Broadcast ch p => (s, broadcast ch p s)
  end.

Fixpoint run (ops : list Op) (s : t) : t * list Delivery :=
  match ops with
  | [] => (s, [])
  | o :: ops' =>
      let '(s', ds) := apply o s in
      let '(s'', ds') := run ops' s' in
      (s'', ds ++ ds')
  end.

End WithListeners.

Arguments t : clear implicits.
Arguments Op : clear implicits.
Arguments Delivery : clear implicits.

End Subscriptions.


(** ** Concrete values used in examples *)

(** A run as the broker sends it, named "abc". *)
Definition run_abc : @Models.Run tick_numbers :=
  {| Models.id := "0b9b2a6e-0000-4000-8000-000000000001";
     Models.name := lit "abc";
     Models.file_path := lit "/tmp/a.csv";
     Models.output_file_path := lit "/tmp/out.csv";
     Models.assignments_file_path := lit "/tmp/assignments.csv";
     Models.created_at := tick 0;
     Models.file_settings := lit "{}";
     Models.algorithm_settings := lit "{}" |}.

Definition current_run_abc : @Models.CurrentRunMessage tick_numbers :=
  {| Models.run := run_abc;
     Models.timesteps :=
       {| Models.ts_id := "0b9b2a6e-0000-4000-8000-000000000002";
          Models.total_duration := tick 0; Models.steps := [] |} |}.


(** The event pair a worker sends for one step that goes well. *)
Definition step_ok (s : Models.ClusteringStep.t) (t_start t_complete : Z)
  : list (@Models.ClusteringProgressMessage tick_numbers) :=
  [ {| Models.step := s; Models.status := Models.Status.start;
       Models.timestamp := tick t_start |};
    {| Models.step := s; Models.status := Models.Status.complete;
       Models.timestamp := tick t_complete |} ].

(** A whole pipeline run, every step taking one tick to start and one more
    to complete. *)
Definition nine_steps_ok : list (@Models.ClusteringProgressMessage tick_numbers) :=
  step_ok Models.ClusteringStep.start 0 1
  ++ step_ok Models.ClusteringStep.process_input_file 2 3
  ++ step_ok Models.ClusteringStep.load_model 4 5
  ++ step_ok Models.ClusteringStep.embed_responses 6 7
  ++ step_ok Models.ClusteringStep.detect_outliers 8 9
  ++ step_ok Models.ClusteringStep.auto_cluster_count 10 11
  ++ step_ok Models.ClusteringStep.cluster 12 13
  ++ step_ok Models.ClusteringStep.merge 14 15
  ++ step_ok Models.ClusteringStep.save 16 17.

(** The same run reported by a worker whose clock steps back after the
    first step. *)
Definition nine_steps_clock_back
  : list (@Models.ClusteringProgressMessage tick_numbers) :=
  step_ok Models.ClusteringStep.start 0 5
  ++ drop 2 nine_steps_ok.

(** A broker whose persisted state is trivial. *)
Definition serve_nothing (c : @Models.Command tick_numbers) (db : ())
  : () * () := (db, ()).

Definition run_clustering_command : @Models.Command tick_numbers :=
  {| Models.action := Models.run_clustering; Models.data := Models.no_data |}.

(** ** The catalog as the specification words it *)

(** The ordered step sequence as the specification lists it. *)
Definition spec_step_order : list string :=
  ["start"; "process_input_file"; "load_model"; "embed_responses";
   "detect_outliers"; "auto_cluster_count"; "cluster"; "merge"; "save"].

(** The statuses a step can carry, as the specification lists them. *)
Definition spec_statuses : list string := ["todo"; "start"; "complete"; "error"].


(** * Properties *)

(** ** The step catalog *)

Lemma ClusteringStep_members_complete (s : Models.ClusteringStep.t) :
  s ∈ Models.ClusteringStep.members.
Proof. destruct s; unfold Models.ClusteringStep.members; set_solver. Qed.

Lemma Status_members_complete (s : Models.Status.t) :
  s ∈ Models.Status.members.
Proof. destruct s; unfold Models.Status.members; set_solver. Qed.

Lemma ClusteringStep_name_in_catalog (s : Models.ClusteringStep.t) :
  Models.ClusteringStep.name s ∈ spec_step_order.
Proof. destruct s; unfold spec_step_order; cbn; set_solver. Qed.

Lemma Status_name_in_spec (s : Models.Status.t) :
  Models.Status.name s ∈ spec_statuses.
Proof. destruct s; unfold spec_statuses; cbn; set_solver. Qed.

(** C2. The step catalog has exactly nine steps, in the order start,
    process_input_file, load_model, embed_responses, detect_outliers,
    auto_cluster_count, cluster, merge, save: the members of the
    [ClusteringStep] type, in declaration order, spell that sequence, every
    value of the type is one of them, and the keys of [progressionMessages]
    are that same sequence, nothing added and nothing left out. *)
Theorem step_catalog_is_the_nine_steps :
  length spec_step_order = 9%nat
  ∧ NoDup spec_step_order
  ∧ Models.ClusteringStep.name <$> Models.ClusteringStep.members
    = spec_step_order
  ∧ NoDup Models.ClusteringStep.members
  ∧ (∀ s : Models.ClusteringStep.t, s ∈ Models.ClusteringStep.members)
  ∧ Models.progressionMessages.*1 = spec_step_order.
Proof.
  split; [reflexivity|].
  split; [apply (bool_decide_unpack _); vm_compute; exact I|].
  split; [reflexivity|].
  split; [apply (bool_decide_unpack _); vm_compute; exact I|].
  split; [apply ClusteringStep_members_complete | reflexivity].
Qed.

(** ** The two progress types *)

Lemma action_name_outside_catalog (a : Models.Action) :
  Models.action_name a ∉ spec_step_order.
Proof.
  apply (bool_decide_unpack _). destruct a; vm_compute; exact I.
Qed.

(** The sources declare the progress payload twice. The callback of
    [progress.onClusteringUpdate] is typed [ClusteringProgressMessage], whose
    step is a catalog step. The [ProgressMessage] that a [Message] of type
    "progress" carries has the same three fields, but its step may also be
    an action name or "init", and none of those is a catalog step. Which of
    the two the channel delivers is settled by code outside the client
    sources. *)
Lemma progress_types_differ_in_step `{JsNumber} :
  (∀ m : Models.callback_payload Models.CLUSTERING_PROGRESS_UPDATE,
     Models.ClusteringStep.name (Models.step m) ∈ spec_step_order
     ∧ Models.Status.name (Models.status m) ∈ spec_statuses)
  ∧ (∀ p : Models.ProgressStep,
       Models.progress_step_name p ∈ spec_step_order
       ↔ ∃ s, p = Models.pipeline_step s)
  ∧ (∀ m : Models.ProgressMessage,
       Models.Status.name (Models.pm_status m) ∈ spec_statuses).
Proof.
  split.
  { intros m. split;
      [apply ClusteringStep_name_in_catalog | apply Status_name_in_spec]. }
  split; [|intros m; apply Status_name_in_spec].
  intros p. split.
  - destruct p as [s | a | ]; cbn.
    + intros _. by exists s.
    + intros Ha. by apply action_name_outside_catalog in Ha.
    + intros Hinit. exfalso. revert Hinit.
      apply (bool_decide_unpack _). vm_compute. exact I.
  - intros [s ->]. apply ClusteringStep_name_in_catalog.
Qed.

(** ** FilePreview *)

Lemma or_else_truthy (a : option jsstring) (b : jsstring) :
  b ≠ [] → or_else a b ≠ [].
Proof. destruct a as [[|c s]|]; cbn; done. Qed.

(** C8. When the Continue action sends the file settings, their delimiter is
    a non-empty string: it is "," when the delimiter state is null or the
    empty string, and the delimiter state itself otherwise. *)
Theorem continue_sends_nonempty_delimiter
    (st : FilePreview.State) (fs : Models.FileSettings) :
  FilePreview.continueClick st = Some fs →
  Models.delimiter fs ≠ []
  ∧ (FilePreview.delimiter st = None ∨ FilePreview.delimiter st = Some []
     → Models.delimiter fs = lit ",")
  ∧ (∀ d, FilePreview.delimiter st = Some d → d ≠ []
     → Models.delimiter fs = d).
Proof.
  unfold FilePreview.continueClick.
  destruct (negb _); [done|].
  case_bool_decide; [done|].
  intros [= <-]; cbn.
  split; [by apply or_else_truthy|].
  split.
  - by intros [-> | ->].
  - intros d -> Hd. by destruct d.
Qed.

Lemma continue_sends_nonempty_delimiter_witness :
  let st := {| FilePreview.filePath := Some (lit "/tmp/a.csv");
               FilePreview.hasHeader := true;
               FilePreview.delimiter := Some [];
               FilePreview.selectedColumns := [1];
               FilePreview.previewData := [] |} in
  let fs := {| Models.delimiter := lit ",";
               Models.has_header := true;
               Models.selected_columns := [1] |} in
  FilePreview.continueClick st = Some fs ∧ Models.delimiter fs ≠ [].
Proof.
  intros st fs.
  split; [reflexivity|].
  apply (continue_sends_nonempty_delimiter st fs). reflexivity.
Defined.

(** C9. Without a header row the header list is empty, so Toggle-all on an
    empty selection leaves the selection empty, however many data columns
    the preview has. *)
Theorem toggleAll_without_header_keeps_empty (st : FilePreview.State) :
  FilePreview.hasHeader st = false →
  FilePreview.selectedColumns st = [] →
  FilePreview.headers st = Some []
  ∧ FilePreview.toggleAll st = Done st
  ∧ ∀ st', FilePreview.toggleAll st = Done st'
           → FilePreview.selectedColumns st' = [].
Proof.
  destruct st as [fp hh dl sel pd]; cbn. intros -> ->.
  unfold FilePreview.toggleAll, FilePreview.headers; cbn.
  split; [reflexivity|]. split; [reflexivity|].
  by intros st' [= <-].
Qed.

Lemma toggleAll_without_header_keeps_empty_witness :
  let st := {| FilePreview.filePath := Some (lit "/tmp/a.csv");
               FilePreview.hasHeader := false;
               FilePreview.delimiter := Some (lit ",");
               FilePreview.selectedColumns := [];
               FilePreview.previewData :=
                 [[lit "a"; lit "b"]; [lit "c"; lit "d"]] |} in
  FilePreview.columnCount st = 2%nat ∧ FilePreview.toggleAll st = Done st.
Proof.
  intros st.
  split; [reflexivity|].
  apply (toggleAll_without_header_keeps_empty st); reflexivity.
Defined.

(** C10. On a duplicate-free selection, [toggleColumn i] keeps the selection
    duplicate-free: it removes [i] when present (all other indices stay) and
    appends [i] once otherwise; toggling the same column twice gives back a
    list with exactly the indices it started from. *)
Theorem toggleColumn_involutive_on_sets (st : FilePreview.State) (i : Z) :
  NoDup (FilePreview.selectedColumns st) →
  let once := FilePreview.toggleColumn i st in
  let twice := FilePreview.toggleColumn i once in
  NoDup (FilePreview.selectedColumns once)
  ∧ (i ∈ FilePreview.selectedColumns st →
     FilePreview.selectedColumns once
     = filter (λ col, col ≠ i) (FilePreview.selectedColumns st)
     ∧ (i ∉ FilePreview.selectedColumns once)
     ∧ (∀ j, j ≠ i → (j ∈ FilePreview.selectedColumns once
                      ↔ j ∈ FilePreview.selectedColumns st)))
  ∧ (i ∉ FilePreview.selectedColumns st →
     FilePreview.selectedColumns once = FilePreview.selectedColumns st ++ [i])
  ∧ (list_to_set (FilePreview.selectedColumns twice) : gset Z)
    = list_to_set (FilePreview.selectedColumns st).
Proof.
  destruct st as [fp hh dl sel pd]; cbn. intros Hnd.
  unfold FilePreview.toggleColumn; cbn.
  destruct (decide (i ∈ sel)) as [Hin | Hout].
  - rewrite (bool_decide_eq_true_2 _ Hin); cbn.
    assert (Hgone : i ∉ filter (λ col, col ≠ i) sel).
    { rewrite list_elem_of_filter. tauto. }
    rewrite (bool_decide_eq_false_2 _ Hgone); cbn.
    split; [by apply NoDup_filter|].
    split.
    { intros _. split; [reflexivity|]. split; [done|].
      intros j Hj. rewrite list_elem_of_filter. tauto. }
    split; [done|].
    apply set_eq. intros j.
    rewrite !elem_of_list_to_set, elem_of_app, list_elem_of_filter,
      list_elem_of_singleton.
    destruct (decide (j = i)); subst; tauto.
  - rewrite (bool_decide_eq_false_2 _ Hout); cbn.
    assert (Hin : i ∈ sel ++ [i]) by set_solver.
    rewrite (bool_decide_eq_true_2 _ Hin); cbn.
    split.
    { apply NoDup_app. split; [done|]. split; [|apply NoDup_singleton].
      intros x Hx ->%list_elem_of_singleton. done. }
    split; [done|].
    split; [done|].
    apply set_eq. intros j.
    rewrite !elem_of_list_to_set, list_elem_of_filter, elem_of_app,
      list_elem_of_singleton.
    destruct (decide (j = i)); subst; tauto.
Qed.

Lemma toggleColumn_involutive_on_sets_witness :
  let st := {| FilePreview.filePath := None; FilePreview.hasHeader := true;
               FilePreview.delimiter := None;
               FilePreview.selectedColumns := [3; 1; 2];
               FilePreview.previewData := [] |} in
  FilePreview.selectedColumns (FilePreview.toggleColumn 1 st) = [3; 2]
  ∧ FilePreview.selectedColumns
      (FilePreview.toggleColumn 1 (FilePreview.toggleColumn 1 st)) = [3; 2; 1]
  ∧ (list_to_set [3; 2; 1] : gset Z) = list_to_set [3; 1; 2].
Proof.
  intros st.
  split; [reflexivity|]. split; [reflexivity|].
  apply (toggleColumn_involutive_on_sets st 1).
  apply (bool_decide_unpack _). vm_compute. exact I.
Defined.

(** ** Results: renaming a run *)






(** The same happens with a name that differs from the one shown: rename to
    "xyz", reopen, clear the input, press Escape, reopen: the input holds
    "abc" again, the flag is stale, and Enter sends nothing. *)
Example rename_ignored_after_escape :
  ∃ st,
    Results.session
      [Results.ReceiveCurrentRun current_run_abc; Results.ClickPencil;
       Results.Change (lit "xyz"); Results.KeyEnter; Results.ClickPencil;
       Results.Change []; Results.KeyEscape; Results.ClickPencil]
      Results.initial
    = Some (st, [Results.database_updateRunName (Models.id run_abc) (lit "xyz")])
    ∧ Results.runName st = Some (lit "xyz")
    ∧ Results.runNameInput st = Some (lit "abc")
    ∧ Results.handle Results.KeyEnter st = Some (Done (st, [])).
Proof.
  eexists. split; [vm_compute; reflexivity|].
  repeat split; vm_compute; reflexivity.
Qed.



(** ** Subscriptions: cancelling *)
Section SubscriptionFacts.
Import Models.
Context {Listener : Type} {Payload : Channel → Type}.

Abbreviation registry := (Subscriptions.t Listener).
Abbreviation op := (Subscriptions.Op Listener Payload).
Abbreviation delivery := (Subscriptions.Delivery Listener Payload).
Abbreviation run := (Subscriptions.run (Payload := Payload)).
Abbreviation apply_op := (Subscriptions.apply (Payload := Payload)).

Lemma cancel_idempotent (h : Subscriptions.Handle) (s : registry) :
  Subscriptions.cancel h (Subscriptions.cancel h s) = Subscriptions.cancel h s.
Proof.
  unfold Subscriptions.cancel; cbn. f_equal.
  by apply list_filter_filter_l.
Qed.

Lemma cancel_absent (h : Subscriptions.Handle) (s : registry) :
  (∀ e, e ∈ Subscriptions.active s → e.1 ≠ h) → Subscriptions.cancel h s = s.
Proof.
  intros Habs. destruct s as [n act]; unfold Subscriptions.cancel; cbn in *.
  f_equal. induction act as [|e act IH]; [done|].
  rewrite filter_cons_True by (apply Habs; left).
  f_equal. apply IH. intros e' He'. apply Habs. by right.
Qed.

Lemma handles_issued_apply (o : op) (s : registry) :
  Subscriptions.handles_issued s → Subscriptions.handles_issued (apply_op o s).1.
Proof.
  intros Hs. destruct o as [ch l | h | ch p]; cbn; [| |done].
  - intros e [He | ->%list_elem_of_singleton]%elem_of_app; cbn; [|lia].
    specialize (Hs e He). lia.
  - intros e [_ He]%list_elem_of_filter. by apply Hs.
Qed.

Lemma next_mono_apply (o : op) (s : registry) :
  (Subscriptions.next s ≤ Subscriptions.next (apply_op o s).1)%nat.
Proof. destruct o; cbn; lia. Qed.

Lemma run_cons (o : op) (ops : list op) (s : registry) :
  run (o :: ops) s
  = ((run ops (apply_op o s).1).1,
     (apply_op o s).2 ++ (run ops (apply_op o s).1).2).
Proof.
  cbn [Subscriptions.run].
  destruct (apply_op o s) as [s' ds]; cbn.
  by destruct (run ops s') as [s'' ds'].
Qed.

Lemma run_app (ops1 ops2 : list op) (s : registry) :
  run (ops1 ++ ops2) s
  = ((run ops2 (run ops1 s).1).1,
     (run ops1 s).2 ++ (run ops2 (run ops1 s).1).2).
Proof.
  revert s. induction ops1 as [|o ops1 IH]; intros s.
  - cbn. by destruct (run ops2 s).
  - rewrite <- app_comm_cons, !run_cons, IH; cbn. by rewrite app_assoc.
Qed.

Lemma handles_issued_run (ops : list op) (s : registry) :
  Subscriptions.handles_issued s → Subscriptions.handles_issued (run ops s).1.
Proof.
  revert s. induction ops as [|o ops IH]; intros s Hs; [done|].
  rewrite run_cons; cbn. by apply IH, handles_issued_apply.
Qed.

Lemma next_mono_run (ops : list op) (s : registry) :
  (Subscriptions.next s ≤ Subscriptions.next (run ops s).1)%nat.
Proof.
  revert s. induction ops as [|o ops IH]; intros s; [done|].
  rewrite run_cons; cbn. etrans; [apply (next_mono_apply o)|apply IH].
Qed.

Lemma cancelled_cancel (h : Subscriptions.Handle) (s : registry) :
  (h < Subscriptions.next s)%nat → Subscriptions.cancelled h (Subscriptions.cancel h s).
Proof.
  intros Hlt. split; [done|].
  by intros e [He _]%list_elem_of_filter.
Qed.

Lemma cancelled_apply (h : Subscriptions.Handle) (o : op) (s : registry) :
  Subscriptions.cancelled h s →
  Subscriptions.cancelled h (apply_op o s).1 ∧ ∀ d, d ∈ (apply_op o s).2 → Subscriptions.to d ≠ h.
Proof.
  unfold Subscriptions.cancelled, Subscriptions.Handle in *.
  intros [Hlt Habs]. destruct o as [ch l | h' | ch p]; cbn.
  - split; [|by intros d ?%elem_of_nil]. split; [lia|].
    intros e [He | ->%list_elem_of_singleton]%elem_of_app; cbn; [|lia].
    by apply Habs.
  - split; [|by intros d ?%elem_of_nil]. split; [done|].
    intros e [_ He]%list_elem_of_filter. by apply Habs.
  - split; [done|].
    intros d (e & -> & [_ He]%list_elem_of_filter)%list_elem_of_fmap; cbn.
    by apply Habs.
Qed.

Lemma cancelled_run (h : Subscriptions.Handle) (ops : list op) (s : registry) :
  Subscriptions.cancelled h s →
  Subscriptions.cancelled h (run ops s).1 ∧ ∀ d, d ∈ (run ops s).2 → Subscriptions.to d ≠ h.
Proof.
  revert s. induction ops as [|o ops IH]; intros s Hc.
  - split; [done|]. by intros d ?%elem_of_nil.
  - rewrite run_cons; cbn.
    destruct (cancelled_apply h o s Hc) as [Hc' Hd'].
    destruct (IH _ Hc') as [Hc'' Hd''].
    split; [done|]. intros d [?|?]%elem_of_app; eauto.
Qed.

(** C6. Take any registry reached from the empty one, subscribe a listener
    on a channel, let anything happen, then invoke the cancellation handle.
    Invoking it a second time changes nothing, at once or later: the
    registry is the same, every later operation behaves the same, and
    nothing is ever delivered to that registration after the first
    invocation. Cancelling is a total function, so there is no error case. *)
Theorem cancellation_handle_idempotent
    (setup between : list op) (ch : Channel) (l : Listener) :
  let s0 := (run setup Subscriptions.empty).1 in
  let h := (Subscriptions.subscribe ch l s0).1 in
  let s1 := (run between (Subscriptions.subscribe ch l s0).2).1 in
  let once := Subscriptions.cancel h s1 in
  Subscriptions.cancel h once = once
  ∧ (∀ later, run (Subscriptions.Cancel h :: later) once = run later once)
  ∧ (∀ later d, d ∈ (run later once).2 → Subscriptions.to d ≠ h)
  ∧ (∀ later after,
       run (later ++ Subscriptions.Cancel h :: after) once
       = run (later ++ after) once).
Proof.
  intros s0 h s1 once.
  assert (Hs0 : Subscriptions.handles_issued s0).
  { apply handles_issued_run. by intros e ?%elem_of_nil. }
  assert (Hh : (h < Subscriptions.next s1)%nat).
  { eapply Nat.lt_le_trans; [|apply next_mono_run]. cbn. lia. }
  assert (Hc : Subscriptions.cancelled h once) by by apply cancelled_cancel.
  assert (Hid : Subscriptions.cancel h once = once) by apply cancel_idempotent.
  clearbody once h. clear Hs0 Hh s1 s0.
  split; [done|].
  split.
  { intros later. rewrite run_cons. cbn [Subscriptions.apply fst snd app].
    rewrite Hid. by destruct (run later once). }
  split; [intros later; by apply cancelled_run|].
  intros later after. rewrite !run_app, run_cons.
  cbn [Subscriptions.apply fst snd app].
  destruct (cancelled_run h later once Hc) as [[_ Habs] _].
  by rewrite (cancel_absent h _ Habs).
Qed.

End SubscriptionFacts.

(** ** Dispatcher: one run in flight *)
Section DispatcherFacts.
Import Models.
Context `{JsNumber} {DB Answer : Type}.
Context (serve : Command → DB → DB * Answer) (new_id : DB → UUID).

Abbreviation dispatcher := (@Dispatcher.t _ DB).
Abbreviation dstep := (Dispatcher.step serve new_id).
Abbreviation drun := (Dispatcher.run serve new_id).
Abbreviation dconfigure := (Dispatcher.configure (DB := DB) (Answer := Answer)).

Lemma initial_not_terminal : Tracker.terminal Tracker.initial = false.
Proof. reflexivity. Qed.

Lemma close_terminal (tr : Tracker.t) : Tracker.terminal (Tracker.close tr) = true.
Proof. reflexivity. Qed.

Lemma abort_terminal (tr : Tracker.t) : Tracker.terminal (Tracker.abort tr) = true.
Proof. reflexivity. Qed.

Lemma flag_matches_runs_initial (d0 : DB) :
  Dispatcher.flag_matches_runs (Dispatcher.initial d0).
Proof. by apply Forall_nil. Qed.

Lemma flag_matches_runs_frame (d d' : dispatcher) :
  Dispatcher.in_flight d' = Dispatcher.in_flight d →
  Dispatcher.runs d' = Dispatcher.runs d →
  Dispatcher.flag_matches_runs d → Dispatcher.flag_matches_runs d'.
Proof. unfold Dispatcher.flag_matches_runs. by intros -> ->. Qed.

Lemma configure_frame (c : Command) (d : dispatcher) :
  Dispatcher.in_flight (dconfigure c d).1 = Dispatcher.in_flight d
  ∧ Dispatcher.runs (dconfigure c d).1 = Dispatcher.runs d.
Proof.
  unfold Dispatcher.configure.
  destruct (Dispatcher.in_flight d) eqn:Hf; cbn; [done|].
  by destruct (action c), (data c).
Qed.

Lemma flag_matches_runs_step (i : Dispatcher.Input) (d : dispatcher) :
  Dispatcher.flag_matches_runs d → Dispatcher.flag_matches_runs (dstep i d).1.
Proof.
  intros Hd. destruct i as [c | ev |]; cbn.
  - unfold Dispatcher.handle_command.
    destruct (action c);
      try (destruct (serve c (Dispatcher.db d)); exact Hd);
      try (destruct (configure_frame c d);
           by apply (flag_matches_runs_frame d)).
    revert Hd. unfold Dispatcher.flag_matches_runs, Dispatcher.run_clustering_cmd.
    destruct (Dispatcher.in_flight d) eqn:Hf; cbn; [by rewrite Hf|].
    intros Hd. eexists _, _.
    split; [reflexivity|]. split; [apply initial_not_terminal|done].
  - revert Hd. unfold Dispatcher.flag_matches_runs, Dispatcher.handle_progress.
    destruct (Dispatcher.in_flight d) eqn:Hf; cbn.
    + intros (tr & rest & -> & Htr & Hrest).
      destruct (Tracker.accept ev tr) as [tr'|]; cbn.
      * destruct (Tracker.terminal tr') eqn:Hterm; cbn.
        -- by apply Forall_cons.
        -- by eexists _, _.
      * apply Forall_cons. split; [apply close_terminal|done].
    + by rewrite Hf.
  - revert Hd. unfold Dispatcher.flag_matches_runs, Dispatcher.handle_exit.
    destruct (Dispatcher.in_flight d) eqn:Hf; cbn.
    + intros (tr & rest & -> & Htr & Hrest); cbn.
      apply Forall_cons. split; [apply abort_terminal|done].
    + by rewrite Hf.
Qed.

Lemma drun_cons (i : Dispatcher.Input) (rest : list Dispatcher.Input)
    (d : dispatcher) :
  drun (i :: rest) d
  = ((drun rest (dstep i d).1).1, (dstep i d).2 ++ (drun rest (dstep i d).1).2).
Proof.
  cbn [Dispatcher.run].
  destruct (dstep i d) as [d' out]; cbn.
  by destruct (drun rest d').
Qed.

Lemma flag_matches_runs_run (inputs : list Dispatcher.Input) (d : dispatcher) :
  Dispatcher.flag_matches_runs d → Dispatcher.flag_matches_runs (drun inputs d).1.
Proof.
  revert d. induction inputs as [|i inputs IH]; intros d Hd; [done|].
  rewrite drun_cons; cbn. by apply IH, flag_matches_runs_step.
Qed.

Lemma holders_all_terminal (trs : list Tracker.t) :
  Forall (λ t, Tracker.terminal t = true) trs →
  filter (λ tr, Tracker.terminal tr = false) trs = [].
Proof.
  induction 1 as [|tr trs Htr _ IH]; [done|].
  rewrite filter_cons_False by congruence. exact IH.
Qed.

Lemma holders_of_flag (d : dispatcher) :
  Dispatcher.flag_matches_runs d →
  length (Dispatcher.holders d) = if Dispatcher.in_flight d then 1%nat else 0%nat.
Proof.
  unfold Dispatcher.flag_matches_runs, Dispatcher.holders.
  destruct (Dispatcher.in_flight d).
  - intros (tr & rest & -> & Htr & Hrest).
    rewrite filter_cons_True by done.
    by rewrite holders_all_terminal.
  - intros Hall. by rewrite holders_all_terminal.
Qed.

(** C1. After any sequence of commands and worker events, at most one run
    holds the in-flight flag, and exactly one does when the flag is up. A
    [run_clustering] that arrives while a run is executing is rejected with
    [AlreadyRunning] and leaves the broker state, and with it the progress
    of the active run, as it was: whatever follows behaves as if the command
    had not been sent, apart from the rejection itself. *)
Theorem at_most_one_run_in_flight (d0 : DB) (inputs : list Dispatcher.Input) :
  let d := (drun inputs (Dispatcher.initial d0)).1 in
  (length (Dispatcher.holders d) ≤ 1)%nat
  ∧ (Dispatcher.in_flight d = true ↔ length (Dispatcher.holders d) = 1%nat)
  ∧ (∀ c, Dispatcher.in_flight d = true → action c = run_clustering →
          dstep (Dispatcher.FromClient c) d
          = (d, [Dispatcher.Rejected Dispatcher.AlreadyRunning]))
  ∧ (∀ c later, Dispatcher.in_flight d = true → action c = run_clustering →
          (drun (Dispatcher.FromClient c :: later) d).1 = (drun later d).1
          ∧ (drun (Dispatcher.FromClient c :: later) d).2
            = Dispatcher.Rejected Dispatcher.AlreadyRunning :: (drun later d).2).
Proof.
  intros d.
  assert (Hd : Dispatcher.flag_matches_runs d).
  { apply flag_matches_runs_run, flag_matches_runs_initial. }
  pose proof (holders_of_flag d Hd) as Hlen.
  assert (Hrej : ∀ c, Dispatcher.in_flight d = true → action c = run_clustering →
            dstep (Dispatcher.FromClient c) d
            = (d, [Dispatcher.Rejected Dispatcher.AlreadyRunning])).
  { intros c Hf Hc. cbn. unfold Dispatcher.handle_command. rewrite Hc.
    unfold Dispatcher.run_clustering_cmd. by rewrite Hf. }
  split; [rewrite Hlen; destruct (Dispatcher.in_flight d); lia|].
  split; [rewrite Hlen; destruct (Dispatcher.in_flight d); naive_solver|].
  split; [exact Hrej|].
  intros c later Hf Hc. rewrite drun_cons, (Hrej c Hf Hc). by cbn.
Qed.

End DispatcherFacts.

(** ** Tracker: the Timesteps record of a successful run *)
Section TrackerFacts.
Import Models.
Context `{JsNumber}.

Lemma initial_in_shape : Tracker.in_shape 0 Tracker.Idle Tracker.initial.
Proof. repeat split; [lia | done]. Qed.

Ltac shape_with k p :=
  exists k, p;
  split;
  [ split; [lia | split; [intros Hp; first [lia | by destruct Hp] | by split]]
  | first [ left; split; reflexivity | right; repeat split; reflexivity ] ].

Ltac shape_is k :=
  first [ shape_with k Tracker.Idle | shape_with k Tracker.Running | shape_with k Tracker.Failed ].

(** One accepted event either leaves the [complete] timestamps alone, or it
    completes step number [k] and appends its timestamp. *)
Lemma accept_in_shape (k : nat) (p : Tracker.phase) (ev : ClusteringProgressMessage)
    (tr tr' : Tracker.t) :
  Tracker.in_shape k p tr →
  Tracker.accept ev tr = Some tr' →
  ∃ k' p',
    Tracker.in_shape k' p' tr'
    ∧ ((Tracker.completed tr' = Tracker.completed tr ∧ k' = k)
       ∨ (Tracker.completed tr'
          = Tracker.completed tr ++ [(step ev, timestamp ev)]
          ∧ ClusteringStep.index (step ev) = k ∧ k' = S k)).
Proof.
  destruct tr as [sts cs cl], ev as [s st ts].
  intros (Hk & Hp & Hsts & Hcl); cbn in Hsts, Hcl. subst sts cl.
  assert (Hcases : k ∈ seq 0 10) by (apply elem_of_seq; lia).
  assert (Hidle : p = Tracker.Idle ∨ k ≠ 9%nat) by
    (destruct p; [by left | right; assert (k < 9)%nat by (by apply Hp); lia ..]).
  clear Hk Hp.
  repeat (apply elem_of_cons in Hcases as [-> | Hcases]);
    [.. | by apply elem_of_nil in Hcases];
    (destruct Hidle as [-> | Hne]; [| destruct p; try done]);
    destruct s, st; intros Hacc; vm_compute in Hacc;
    try discriminate Hacc; injection Hacc as <-;
    first [ shape_is 0%nat | shape_is 1%nat | shape_is 2%nat | shape_is 3%nat
          | shape_is 4%nat | shape_is 5%nat | shape_is 6%nat | shape_is 7%nat
          | shape_is 8%nat | shape_is 9%nat ].
Qed.
Lemma members_lookup_index (s : ClusteringStep.t) :
  ClusteringStep.members !! ClusteringStep.index s = Some s.
Proof. by destruct s. Qed.

(** Along an accepted event sequence the steps complete in catalog order,
    and the recorded timestamps are sorted if the event timestamps are. *)
Lemma feed_in_shape (evs : list ClusteringProgressMessage) :
  ∀ (k : nat) (p : Tracker.phase) (tr tr' : Tracker.t),
    Tracker.in_shape k p tr →
    (Tracker.completed tr).*1 = take k ClusteringStep.members →
    Tracker.feed evs tr = Some tr' →
    ∃ k' p',
      Tracker.in_shape k' p' tr'
      ∧ (Tracker.completed tr').*1 = take k' ClusteringStep.members
      ∧ (StronglySorted num_le (timestamp <$> evs) →
         StronglySorted num_le (Tracker.completed tr).*2 →
         Tracker.all_le (Tracker.completed tr).*2 (timestamp <$> evs) →
         StronglySorted num_le (Tracker.completed tr').*2).
Proof.
  induction evs as [|ev evs IH]; intros k p tr tr' Hshape Hsteps; cbn.
  { intros [= <-]. by exists k, p. }
  destruct (Tracker.accept ev tr) as [tr1|] eqn:Hacc; [|done].
  intros Hfeed.
  destruct (accept_in_shape k p ev tr tr1 Hshape Hacc)
    as (k1 & p1 & Hshape1 & Hcompleted).
  destruct Hcompleted as [[Hsame ->] | (Happ & Hidx & ->)].
  - rewrite <- Hsame in Hsteps.
    destruct (IH k p1 tr1 tr' Hshape1 Hsteps Hfeed) as (k' & p' & ? & ? & Hs).
    exists k', p'. split; [done|]. split; [done|].
    rewrite Hsame in Hs.
    intros [_ Hevs]%StronglySorted_cons Hcs Hle. apply Hs; [done..|].
    intros a b Ha Hb. apply Hle; [done|by right].
  - assert (Hsteps1 : (Tracker.completed tr1).*1
                      = take (S k) ClusteringStep.members).
    { rewrite Happ, fmap_app, Hsteps.
      erewrite take_S_r by (rewrite <- Hidx; apply members_lookup_index).
      reflexivity. }
    destruct (IH (S k) p1 tr1 tr' Hshape1 Hsteps1 Hfeed)
      as (k' & p' & ? & ? & Hs).
    exists k', p'. split; [done|]. split; [done|].
    rewrite Happ, fmap_app in Hs; cbn in Hs.
    intros [Hev Hevs]%StronglySorted_cons Hcs Hle. apply Hs; [done| |].
    + apply StronglySorted_app. split; [|split; [done|]].
      * intros a b Ha ->%list_elem_of_singleton. apply Hle; [done|by left].
      * repeat constructor.
    + intros a b [Ha | ->%list_elem_of_singleton]%elem_of_app Hb.
      * apply Hle; [done|by right].
      * by eapply Forall_forall in Hev.
Qed.

Lemma succeeded_in_shape (k : nat) (p : Tracker.phase) (tr : Tracker.t) :
  Tracker.in_shape k p tr → Tracker.succeeded tr = true → k = 9%nat.
Proof.
  intros (Hk & Hp & Hsts & _).
  unfold Tracker.succeeded, Tracker.status_of. rewrite Hsts.
  assert (Hcases : k ∈ seq 0 10) by (apply elem_of_seq; lia).
  clear Hk Hp Hsts.
  repeat (apply elem_of_cons in Hcases as [-> | Hcases]);
    [.. | by apply elem_of_nil in Hcases];
    try done; by destruct p.
Qed.

(** A run that was accepted event by event and reached terminal success has
    a Timesteps record: one entry per catalog step, in catalog order; the
    entries are sorted whenever the event timestamps were; the total is the
    [save] timestamp minus the [start] timestamp. *)
Lemma timesteps_of_successful_run
    (evs : list ClusteringProgressMessage) (tr : Tracker.t) (rid : UUID) :
  Tracker.feed evs Tracker.initial = Some tr →
  Tracker.succeeded tr = true →
  ∃ ts t0 tn,
    Tracker.timesteps rid tr = Some ts
    ∧ (steps ts).*1 = ClusteringStep.members
    ∧ head (steps ts) = Some (ClusteringStep.start, t0)
    ∧ last (steps ts) = Some (ClusteringStep.save, tn)
    ∧ total_duration ts = num_sub tn t0
    ∧ (StronglySorted num_le (timestamp <$> evs) →
       StronglySorted num_le (steps ts).*2).
Proof.
  intros Hfeed Hsucc.
  destruct (feed_in_shape evs 0 Tracker.Idle Tracker.initial tr initial_in_shape
              eq_refl Hfeed) as (k & p & Hshape & Hsteps & Hsorted).
  pose proof (succeeded_in_shape k p tr Hshape Hsucc) as ->.
  destruct Hshape as (_ & _ & _ & Hclosed).
  unfold Tracker.timesteps. rewrite Hsucc, Hclosed; cbn [andb negb].
  destruct tr as [sts cs cl]; cbn in *.
  do 9 (destruct cs as [|[? ?] cs]; [done|]).
  destruct cs; [|done].
  cbn in Hsteps. injection Hsteps as -> -> -> -> -> -> -> -> ->.
  eexists _, _, _. cbn.
  split; [reflexivity|]. split; [reflexivity|]. split; [reflexivity|].
  split; [reflexivity|]. split; [reflexivity|].
  intros Hevs. apply Hsorted; [done|constructor|].
  by intros a b ?%elem_of_nil.
Qed.

End TrackerFacts.

(** ** Concrete runs *)

Example nine_steps_ok_timesteps :
  ∃ tr,
    Tracker.feed nine_steps_ok Tracker.initial = Some tr
    ∧ Tracker.succeeded tr = true
    ∧ Tracker.timesteps "t" tr
      = Some {| Models.ts_id := "t"; Models.total_duration := tick 16;
                Models.steps :=
                  [ (Models.ClusteringStep.start, tick 1);
                    (Models.ClusteringStep.process_input_file, tick 3);
                    (Models.ClusteringStep.load_model, tick 5);
                    (Models.ClusteringStep.embed_responses, tick 7);
                    (Models.ClusteringStep.detect_outliers, tick 9);
                    (Models.ClusteringStep.auto_cluster_count, tick 11);
                    (Models.ClusteringStep.cluster, tick 13);
                    (Models.ClusteringStep.merge, tick 15);
                    (Models.ClusteringStep.save, tick 17) ] |}.
Proof.
  eexists. split; [vm_compute; reflexivity|].
  split; vm_compute; reflexivity.
Qed.

(** The transition rule looks at steps and statuses only. A worker whose
    clock steps back between two events is still accepted, and the record
    derived from its run is not sorted. *)
Example clock_stepping_back_is_accepted :
  ∃ tr ts,
    Tracker.feed nine_steps_clock_back Tracker.initial = Some tr
    ∧ Tracker.timesteps "t" tr = Some ts
    ∧ take 2 (Models.steps ts)
      = [ (Models.ClusteringStep.start, tick 5);
          (Models.ClusteringStep.process_input_file, tick 3) ]
    ∧ ¬ StronglySorted num_le (Models.steps ts).*2.
Proof.
  eexists _, _. split; [vm_compute; reflexivity|].
  split; [vm_compute; reflexivity|].
  split; [reflexivity|].
  intros [Hle _]%StronglySorted_cons.
  apply Forall_cons in Hle as [Hle _]. vm_compute in Hle. by apply Hle.
Qed.

(** The [Response] interface keeps [is_outlier] and [cluster_id] as two
    independent fields: a value of the type can be flagged as an outlier and
    name a cluster at once. *)
Example Response_fields_are_independent :
  ∃ r : @Models.Response tick_numbers,
    Models.is_outlier r = true ∧ is_Some (Models.cluster_id r).
Proof.
  exists {| Models.r_id := "r"; Models.text := lit "text";
            Models.embedding := None; Models.is_outlier := true;
            Models.r_similarity := None; Models.r_count := tick 1;
            Models.cluster_id := Some "c" |}.
  split; [reflexivity | by eexists].
Qed.

Lemma at_most_one_run_in_flight_witness :
  let inputs :=
    Dispatcher.FromClient run_clustering_command
    :: (Dispatcher.FromWorker <$> step_ok Models.ClusteringStep.start 0 1) in
  let d := (Dispatcher.run serve_nothing (λ _, "t") inputs
              (Dispatcher.initial ())).1 in
  Dispatcher.in_flight d = true
  ∧ length (Dispatcher.holders d) = 1%nat
  ∧ Dispatcher.step serve_nothing (λ _, "t")
      (Dispatcher.FromClient run_clustering_command) d
    = (d, [Dispatcher.Rejected Dispatcher.AlreadyRunning]).
Proof.
  intros inputs d.
  destruct (at_most_one_run_in_flight serve_nothing (λ _, "t") () inputs)
    as (_ & Hone & Hrejected & _).
  assert (Hflag : Dispatcher.in_flight d = true) by (vm_compute; reflexivity).
  split; [exact Hflag|].
  split; [by apply Hone | by apply Hrejected].
Defined.

(** * More of the client code *)

(** ** FilePreview: the fill loops *)
Section FillFacts.
Import PreviewData.

Implicit Types (data orig : list (list jsstring)) (s : FillState).

Lemma truthy_Some_nonempty (o : option jsstring) :
  truthy o = true ↔ ∃ v, o = Some v ∧ v ≠ [].
Proof.
  destruct o as [[|c v]|]; cbn; split; try done.
  - intros (v & [= <-] & Hv). done.
  - intros _. by eexists.
  - intros (v & [=] & _).
Qed.

Lemma cell_assign data (i j i' j' : nat) (v : jsstring) :
  cell (alter (λ row, <[j := v]> row) i data) i' j'
  = if bool_decide (i = i' ∧ j = j' ∧ is_Some (cell data i j))
    then Some v else cell data i' j'.
Proof.
  unfold cell. destruct (decide (i = i')) as [<- | Hi].
  - rewrite list_lookup_alter_eq.
    destruct (data !! i) as [row|] eqn:Hrow; cbn.
    + destruct (decide (j = j')) as [<- | Hj].
      * destruct (row !! j) as [w|] eqn:Hw.
        -- rewrite bool_decide_eq_true_2 by eauto.
           apply list_lookup_insert_eq. by eapply lookup_lt_Some.
        -- rewrite bool_decide_eq_false_2 by (intros (_ & _ & [? [=]])).
           rewrite list_insert_ge; [done|]. by apply lookup_ge_None.
      * rewrite bool_decide_eq_false_2 by (by intros (_ & ? & _)).
        by apply list_lookup_insert_ne.
    + rewrite bool_decide_eq_false_2; [done|]. by intros (_ & _ & [? [=]]).
  - rewrite list_lookup_alter_ne by done.
    by rewrite bool_decide_eq_false_2 by (by intros (? & _)).
Qed.

Lemma shape_assign data (i j : nat) (v : jsstring) :
  length <$> alter (λ row, <[j := v]> row) i data = length <$> data.
Proof.
  apply list_eq. intros i'. rewrite !list_lookup_fmap.
  destruct (decide (i = i')) as [<- | Hi].
  - rewrite list_lookup_alter_eq. destruct (data !! i); cbn; [|done].
    by rewrite length_insert.
  - by rewrite list_lookup_alter_ne.
Qed.

Lemma scan_Some data (j k k' : nat) :
  scan data j k = Some k' →
  (k' ≤ k)%nat ∧ truthy (cell data k' j) = true
  ∧ ∀ k'', (k' < k'' ≤ k)%nat → truthy (cell data k'' j) = false.
Proof.
  induction k as [|k IH]; cbn.
  - destruct (truthy (cell data 0 j)) eqn:Ht; [|done].
    intros [= <-]. split; [done|]. split; [done|]. lia.
  - destruct (truthy (cell data (S k) j)) eqn:Ht.
    + intros [= <-]. split; [done|]. split; [done|]. lia.
    + intros (? & ? & Hlater)%IH. split; [lia|]. split; [done|].
      intros k'' Hk''. destruct (decide (k'' = S k)) as [-> | ?]; [done|].
      apply Hlater. lia.
Qed.

Lemma scan_None data (j k : nat) :
  scan data j k = None → ∀ k', (k' ≤ k)%nat → truthy (cell data k' j) = false.
Proof.
  induction k as [|k IH]; cbn.
  - destruct (truthy (cell data 0 j)) eqn:Ht; [done|].
    intros _ k' Hk'. by replace k' with 0%nat by lia.
  - destruct (truthy (cell data (S k) j)) eqn:Ht; [done|].
    intros Hnone k' Hk'. destruct (decide (k' = S k)) as [-> | ?]; [done|].
    apply (IH Hnone). lia.
Qed.

Lemma fill_related_start orig :
  fill_related orig
    {| parsedData := orig;
       fillIndexes := replicate (length orig) (Z.of_nat (length orig) - 1) |}.
Proof. split; [apply length_replicate|]. split; [done|]. by left. Qed.

Lemma fill_related_visit orig s (i j : nat) :
  fill_related orig s → fill_related orig (visit i j s).
Proof.
  intros (Hidx & Hshape & Hcells). unfold visit.
  destruct (truthy (cell (parsedData s) i j)) eqn:Hempty; [done|].
  destruct (scan_from _ _ _) as [k|] eqn:Hscan; [|done].
  assert (Hj : (j < length orig)%nat).
  { unfold scan_from in Hscan.
    destruct (fillIndexes s !! j) eqn:Hl; [|done].
    rewrite <- Hidx. by eapply lookup_lt_Some. }
  assert (Hfound : truthy (cell (parsedData s) k j) = true).
  { unfold scan_from in Hscan. destruct (fillIndexes s !! j); [|done].
    case_bool_decide; [|done]. by apply scan_Some in Hscan as (_ & ? & _). }
  apply truthy_Some_nonempty in Hfound as (v & Hv & Hne).
  assert (Hsource : ∃ k' v', cell orig k' j = Some v' ∧ v' ≠ [] ∧ v = v').
  { destruct (Hcells k j) as [Heq | (_ & _ & k' & v' & ? & ? & Hv')].
    - exists k, v. by rewrite <- Heq.
    - exists k', v'. rewrite Hv in Hv'. by injection Hv' as ->. }
  destruct Hsource as (k' & ? & Hk' & ? & <-).
  split; [cbn; by rewrite length_insert|].
  split; [cbn; by rewrite shape_assign|].
  intros i' j'. cbn. rewrite cell_assign, Hv; cbn.
  case_bool_decide as Hhere; [|apply Hcells].
  destruct Hhere as (<- & <- & [w Hw]).
  right. split; [done|]. split; [|by eauto].
  assert (w = []) as ->.
  { rewrite Hw in Hempty. by destruct w. }
  destruct (Hcells i j) as [<- | (_ & _ & ? & w' & _ & Hw' & Heq)]; [done|].
  rewrite Hw in Heq. injection Heq as <-. done.
Qed.

Lemma foldl_invariant {A St} (P : St → Prop) (g : St → A → St)
    (l : list A) (acc : St) :
  (∀ acc' a, a ∈ l → P acc' → P (g acc' a)) → P acc → P (foldl g acc l).
Proof.
  revert acc. induction l as [|a l IH]; intros acc Hg Hacc; [done|].
  cbn. apply IH.
  - intros acc' a' Ha'. apply Hg. by right.
  - apply Hg; [by left | done].
Qed.

Lemma fill_related_fill_row orig s (i : nat) :
  fill_related orig s → fill_related orig (fill_row i s).
Proof.
  intros Hs. unfold fill_row.
  apply (foldl_invariant (fill_related orig)); [|done].
  intros s' j _. apply fill_related_visit.
Qed.

Lemma fill_related_fill orig :
  ∃ s, fill orig = parsedData s ∧ fill_related orig s.
Proof.
  eexists. split; [reflexivity|].
  apply (foldl_invariant (fill_related orig)); [|apply fill_related_start].
  intros s i _. apply fill_related_fill_row.
Qed.

Lemma fill_related_shape orig s :
  fill_related orig s →
  length (parsedData s) = length orig
  ∧ ∀ i row, orig !! i = Some row →
      ∃ row', parsedData s !! i = Some row' ∧ length row' = length row.
Proof.
  intros (_ & Hshape & _). split.
  - by rewrite <- (length_fmap length), Hshape, length_fmap.
  - intros i row Hrow.
    assert (Hi : (length <$> parsedData s) !! i = Some (length row)).
    { by rewrite Hshape, list_lookup_fmap, Hrow. }
    rewrite list_lookup_fmap in Hi.
    destruct (parsedData s !! i) as [row'|]; [|done].
    injection Hi as Hi. by exists row'.
Qed.

Lemma fill_related_cells orig s (i j : nat) :
  fill_related orig s →
  (∀ v, cell orig i j = Some v → v ≠ [] → cell (parsedData s) i j = Some v)
  ∧ (∀ v, cell (parsedData s) i j = Some v → v ≠ [] →
          ∃ k, cell orig k j = Some v)
  ∧ (cell (parsedData s) i j = None ↔ cell orig i j = None).
Proof.
  intros (_ & _ & Hcells).
  destruct (Hcells i j) as [-> | (_ & Hgap & k & w & Hk & Hw & ->)].
  - split; [done|]. split; [by eauto | done].
  - rewrite Hgap. split; [by intros v [= <-]|].
    split; [|done]. intros v [= <-] _. by exists k.
Qed.

(** X1. The fill loops keep the table's shape: as many rows, and every row
    as long as before. *)
Theorem fill_keeps_shape data :
  length (fill data) = length data
  ∧ ∀ i row, data !! i = Some row →
      ∃ row', fill data !! i = Some row' ∧ length row' = length row.
Proof.
  destruct (fill_related_fill data) as (s & -> & Hs).
  by apply fill_related_shape.
Qed.

(** X2. The fill loops never overwrite a non-empty cell, and whatever they
    put into an empty cell is a non-empty cell of the same column of the
    data they were given. *)
Theorem fill_copies_within_column data (i j : nat) :
  (∀ v, cell data i j = Some v → v ≠ [] → cell (fill data) i j = Some v)
  ∧ (∀ v, cell (fill data) i j = Some v → v ≠ [] →
          ∃ k, cell data k j = Some v)
  ∧ (cell (fill data) i j = None ↔ cell data i j = None).
Proof.
  destruct (fill_related_fill data) as (s & -> & Hs).
  by apply fill_related_cells.
Qed.

(** X3. The fill bookkeeping has one slot per row but is indexed by column: a
    column whose index is not below the number of rows is never filled. *)
Theorem fill_skips_columns_beyond_row_count data (i j : nat) :
  (length data ≤ j)%nat → cell (fill data) i j = cell data i j.
Proof.
  intros Hj.
  destruct (fill_related_fill data) as (s & -> & _ & _ & Hcells).
  destruct (Hcells i j) as [-> | (? & _)]; [done | lia].
Qed.

Lemma fill_skips_columns_beyond_row_count_witness :
  let data := [[lit "a"; lit "b"; lit "c"]; [[]; []; []]] in
  cell (fill data) 1 2 = Some []
  ∧ fill data = [[lit "a"; lit "b"; lit "c"]; [lit "a"; lit "b"; []]].
Proof.
  intros data. split; [|vm_compute; reflexivity].
  rewrite (fill_skips_columns_beyond_row_count data 1 2); [reflexivity|].
  cbn. lia.
Defined.

Lemma scan_finds data (j k top : nat) :
  (k ≤ top)%nat →
  truthy (cell data k j) = true →
  (∀ k', (k < k' ≤ top)%nat → truthy (cell data k' j) = false) →
  scan data j top = Some k.
Proof.
  intros Hk Hfound Hlater. induction top as [|top IH]; cbn.
  - replace k with 0%nat in Hfound by lia. rewrite Hfound. f_equal. lia.
  - destruct (decide (k = S top)) as [-> | Hne].
    + by rewrite Hfound.
    + rewrite Hlater by lia. apply IH; [lia|].
      intros k' Hk'. apply Hlater. lia.
Qed.

Lemma seq_split_at (i n : nat) :
  (i < n)%nat → seq 0 n = seq 0 i ++ i :: seq (S i) (n - S i).
Proof.
  intros Hi. replace n with (i + S (n - S i))%nat at 1 by lia.
  by rewrite seq_app.
Qed.

Lemma column_fresh_visit orig s (i j j' : nat) :
  column_fresh orig j s →
  (j' = j → truthy (cell orig i j) = true) →
  column_fresh orig j (visit i j' s).
Proof.
  intros [Hslot Hcol] Hfull. unfold visit.
  destruct (truthy (cell (parsedData s) i j')) eqn:Hempty; [done|].
  assert (Hne : j' ≠ j).
  { intros ->. rewrite Hcol, Hfull in Hempty; done. }
  destruct (scan_from _ _ _) as [k|]; [|done].
  split; cbn.
  - by rewrite list_lookup_insert_ne.
  - intros i'. rewrite cell_assign.
    rewrite bool_decide_eq_false_2; [apply Hcol|]. by intros (_ & ? & _).
Qed.

Lemma column_fresh_fill_row orig s (i j : nat) :
  column_fresh orig j s →
  cell orig i j ≠ Some [] →
  column_fresh orig j (fill_row i s).
Proof.
  intros Hfresh Hfull. unfold fill_row.
  set (len := length (default [] (parsedData s !! i))).
  assert (Htruthy : (j < len)%nat → truthy (cell orig i j) = true).
  { intros Hj. destruct Hfresh as [_ Hcol]. rewrite <- Hcol in Hfull |- *.
    subst len. unfold cell in *.
    destruct (parsedData s !! i) as [row|]; cbn in *; [|lia].
    destruct (lookup_lt_is_Some_2 row j Hj) as [w Hw].
    rewrite Hw in Hfull |- *. destruct w; [done|done]. }
  apply (foldl_invariant (column_fresh orig j)); [|done].
  intros s' j' Hj' Hs'. apply column_fresh_visit; [done|].
  intros ->. apply Htruthy. apply elem_of_seq in Hj'. lia.
Qed.

Lemma visit_keeps_nonempty s (i j a b : nat) (v : jsstring) :
  cell (parsedData s) a b = Some v → v ≠ [] →
  cell (parsedData (visit i j s)) a b = Some v.
Proof.
  intros Hv Hne. unfold visit.
  destruct (truthy (cell (parsedData s) i j)) eqn:Hempty; [done|].
  destruct (scan_from _ _ _) as [k|]; [|done].
  cbn. rewrite cell_assign.
  rewrite bool_decide_eq_false_2; [done|].
  intros (-> & -> & _). rewrite Hv in Hempty. by destruct v.
Qed.

Lemma fill_row_keeps_nonempty s (i a b : nat) (v : jsstring) :
  cell (parsedData s) a b = Some v → v ≠ [] →
  cell (parsedData (fill_row i s)) a b = Some v.
Proof.
  intros Hv Hne. unfold fill_row.
  apply (foldl_invariant (λ s', cell (parsedData s') a b = Some v)); [|done].
  intros s' j _ Hs'. by apply visit_keeps_nonempty.
Qed.

(** X4. The first gap of a column is filled from the bottom of the table: it
    receives the column's lowest non-empty cell, wherever that cell is. *)
Theorem fill_first_gap_takes_lowest_value data (i j k : nat) (v : jsstring) :
  (j < length data)%nat →
  cell data i j = Some [] →
  (∀ i', (i' < i)%nat → cell data i' j ≠ Some []) →
  cell data k j = Some v → v ≠ [] →
  (∀ k', (k < k')%nat → truthy (cell data k' j) = false) →
  cell (fill data) i j = Some v.
Proof.
  intros Hj Hgap Hfirst Hk Hv Hlowest. unfold fill.
  set (n := length data).
  assert (Hi : (i < n)%nat).
  { unfold cell in Hgap. destruct (data !! i) eqn:Hrow; [|done].
    by eapply lookup_lt_Some. }
  assert (Hkn : (k < n)%nat).
  { unfold cell in Hk. destruct (data !! k) eqn:Hrow; [|done].
    by eapply lookup_lt_Some. }
  rewrite (seq_split_at i n Hi).
  rewrite foldl_app. cbn [foldl].
  set (s0 := {| parsedData := data; fillIndexes := _ |}).
  set (s1 := foldl _ s0 (seq 0 i)).
  assert (Hs1 : column_fresh data j s1).
  { apply (foldl_invariant (column_fresh data j)).
    - intros s i' Hi' Hs. apply column_fresh_fill_row; [done|].
      apply Hfirst. apply elem_of_seq in Hi'. lia.
    - split; [|done]. cbn. by apply lookup_replicate_2. }
  apply (foldl_invariant (λ s, cell (parsedData s) i j = Some v)).
  { intros s i' _ Hs. by apply fill_row_keeps_nonempty. }
  unfold fill_row.
  set (len := length (default [] (parsedData s1 !! i))).
  assert (Hlen : (j < len)%nat).
  { destruct Hs1 as [_ Hcol]. specialize (Hcol i). rewrite Hgap in Hcol.
    subst len. unfold cell in Hcol.
    destruct (parsedData s1 !! i) as [row|]; cbn in *; [|done].
    by eapply lookup_lt_Some. }
  rewrite (seq_split_at j len Hlen).
  rewrite foldl_app. cbn [foldl].
  set (s2 := foldl _ s1 (seq 0 j)).
  assert (Hs2 : column_fresh data j s2).
  { apply (foldl_invariant (column_fresh data j)); [|done].
    intros s j' Hj' Hs. apply column_fresh_visit; [done|].
    intros ->. apply elem_of_seq in Hj'. lia. }
  apply (foldl_invariant (λ s, cell (parsedData s) i j = Some v)).
  { intros s j' _ Hs. by apply visit_keeps_nonempty. }
  destruct Hs2 as [Hslot Hcol]. unfold visit.
  rewrite Hcol, Hgap; cbn [truthy]. rewrite Hslot; cbn [scan_from].
  rewrite bool_decide_eq_true_2 by (fold n; lia).
  erewrite (scan_finds _ j k).
  - cbn. rewrite cell_assign, !Hcol, Hgap, Hk; cbn.
    by rewrite bool_decide_eq_true_2 by eauto.
  - fold n. lia.
  - rewrite Hcol, Hk. by destruct v.
  - intros k' [Hk' _]. rewrite Hcol. by apply Hlowest.
Qed.

Lemma fill_first_gap_takes_lowest_value_witness :
  let data := [[lit "a"]; [[]]; [lit "b"]; [[]]; [lit "c"]] in
  cell (fill data) 1 0 = Some (lit "c")
  ∧ fill data = [[lit "a"]; [lit "c"]; [lit "b"]; [lit "b"]; [lit "c"]].
Proof.
  intros data. split; [|vm_compute; reflexivity].
  apply (fill_first_gap_takes_lowest_value data 1 0 4 (lit "c")).
  - cbn. lia.
  - reflexivity.
  - intros i' Hi'. replace i' with 0%nat by lia. discriminate.
  - reflexivity.
  - discriminate.
  - intros k' Hk'. unfold cell, data.
    rewrite lookup_ge_None_2; [done|]. cbn. lia.
Defined.
End FillFacts.

(** ** FilePreview: selecting columns *)
Section SelectionFacts.
Import FilePreview FilePreviewPage.

(** X7. Clicking a column header flips that column and no other, whatever the
    selection looked like before (duplicates included). *)
Theorem toggleColumn_flips_one_column (st : State) (i : Z) :
  let st' := toggleColumn i st in
  (i ∈ selectedColumns st' ↔ i ∉ selectedColumns st)
  ∧ (∀ j, j ≠ i → (j ∈ selectedColumns st' ↔ j ∈ selectedColumns st))
  ∧ filePath st' = filePath st ∧ hasHeader st' = hasHeader st
  ∧ delimiter st' = delimiter st ∧ previewData st' = previewData st.
Proof.
  destruct st as [fp hh dl sel pd]. unfold toggleColumn; cbn.
  case_bool_decide as Hin; cbn.
  - split; [rewrite list_elem_of_filter; tauto|].
    split; [|done]. intros j Hj. rewrite list_elem_of_filter. tauto.
  - split; [rewrite elem_of_app, list_elem_of_singleton; tauto|].
    split; [|done]. intros j Hj.
    rewrite elem_of_app, list_elem_of_singleton. tauto.
Qed.

Lemma filter_absent (sel : list Z) (i : Z) :
  i ∉ sel → filter (λ col, col ≠ i) sel = sel.
Proof.
  induction sel as [|c sel IH]; [done|].
  intros [Hne Hc]%not_elem_of_cons.
  rewrite filter_cons_True by done. f_equal. by apply IH.
Qed.

Lemma filter_remove_one (sel : list Z) (i : Z) :
  NoDup sel → i ∈ sel →
  S (length (filter (λ col, col ≠ i) sel)) = length sel.
Proof.
  induction 1 as [|c sel Hc Hnd IH]; [by intros ?%elem_of_nil|].
  intros [-> | Hin]%elem_of_cons.
  - rewrite filter_cons_False by tauto. cbn. by rewrite filter_absent.
  - rewrite filter_cons_True by (intros ->; done). cbn. f_equal. by apply IH.
Qed.

(** X8. On a duplicate-free selection one click changes the number shown by the
    counter by exactly one: down if the column was selected, up if not. *)
Theorem toggleColumn_moves_counter_by_one (st : State) (i : Z) :
  NoDup (selectedColumns st) →
  (selectedCounter (toggleColumn i st)).1
  = if bool_decide (i ∈ selectedColumns st)
    then ((selectedCounter st).1 - 1)%nat
    else S (selectedCounter st).1.
Proof.
  destruct st as [fp hh dl sel pd]. unfold toggleColumn, selectedCounter; cbn.
  intros Hnd. case_bool_decide as Hin; cbn.
  - rewrite <- (filter_remove_one sel i Hnd Hin). lia.
  - rewrite length_app. cbn. lia.
Qed.

Lemma toggleColumn_moves_counter_by_one_witness :
  let st := {| filePath := None; hasHeader := true; delimiter := None;
               selectedColumns := [3; 1; 2]; previewData := [] |} in
  (selectedCounter (toggleColumn 1 st)).1 = 2%nat
  ∧ (selectedCounter (toggleColumn 7 st)).1 = 4%nat.
Proof.
  intros st. split.
  - rewrite (toggleColumn_moves_counter_by_one st 1); [reflexivity|].
    apply (bool_decide_unpack _). vm_compute. exact I.
  - rewrite (toggleColumn_moves_counter_by_one st 7); [reflexivity|].
    apply (bool_decide_unpack _). vm_compute. exact I.
Defined.

(** X9. Toggle all throws in exactly one situation: header row switched on, no
    preview rows, nothing selected. With something selected it clears the
    selection; otherwise it selects the indices of the header cells. *)
Theorem toggleAll_throws_only_without_rows (st : State) :
  (toggleAll st = TypeError
   ↔ hasHeader st = true ∧ previewData st = [] ∧ selectedColumns st = [])
  ∧ (selectedColumns st ≠ [] → toggleAll st = Done (setSelectedColumns [] st))
  ∧ (∀ hs, selectedColumns st = [] → headers st = Some hs →
       toggleAll st = Done (setSelectedColumns (keys (length hs)) st)).
Proof.
  destruct st as [fp hh dl sel pd]. unfold toggleAll, headers; cbn.
  split; [|split].
  - destruct sel as [|c sel]; cbn.
    + destruct hh; cbn; [|split; [done | by intros [[=] _]]].
      destruct pd as [|row pd]; cbn; [done|].
      split; [done | by intros (_ & [=] & _)].
    + split; [done | by intros (_ & _ & [=])].
  - intros Hsel. by destruct sel.
  - intros hs -> Hhs. cbn. by rewrite Hhs.
Qed.

Lemma keys_spec (n : nat) (c : Z) : c ∈ keys n ↔ 0 ≤ c < Z.of_nat n.
Proof.
  unfold keys. rewrite list_elem_of_fmap. split.
  - intros (i & -> & Hi%elem_of_seq). lia.
  - intros Hc. exists (Z.to_nat c). split; [lia|]. apply elem_of_seq. lia.
Qed.

Lemma keys_NoDup (n : nat) : NoDup (keys n).
Proof.
  unfold keys. apply NoDup_fmap_2; [|apply NoDup_seq].
  intros a b. lia.
Qed.

(** X10. With a header row and nothing selected, Toggle all selects every column
    that has a header cell: all rendered column headers are on, the counter
    shows their number, and no index is selected twice. *)
Theorem toggleAll_selects_every_header (st : State) (hs : list jsstring)
    (rows : list (list jsstring)) :
  hasHeader st = true →
  previewData st = hs :: rows →
  selectedColumns st = [] →
  ∃ st',
    toggleAll st = Done st'
    ∧ NoDup (selectedColumns st')
    ∧ (selectedCounter st').1 = length hs
    ∧ length (columnHeaders st') = length hs
    ∧ Forall (λ h, isOn h = true) (columnHeaders st').
Proof.
  destruct st as [fp hh dl sel pd]; cbn. intros -> -> ->.
  eexists. split; [reflexivity|]. cbn.
  split; [apply keys_NoDup|].
  split; [unfold selectedCounter, keys; cbn; by rewrite length_fmap, length_seq|].
  unfold columnHeaders; cbn.
  split; [by rewrite length_imap|].
  apply Forall_forall. intros h Hh.
  apply elem_of_lookup_imap in Hh as (i & header & -> & Hi). cbn.
  apply bool_decide_eq_true_2, keys_spec.
  apply lookup_lt_Some in Hi. lia.
Qed.

Lemma toggleAll_selects_every_header_witness :
  let st := {| filePath := Some (lit "/tmp/a.csv"); hasHeader := true;
               delimiter := Some (lit ","); selectedColumns := [];
               previewData := [[lit "id"; lit "answer"]; [lit "1"; lit "yes"]] |} in
  ∃ st', toggleAll st = Done st' ∧ selectedColumns st' = [0; 1]
         ∧ Forall (λ h, isOn h = true) (columnHeaders st').
Proof.
  intros st.
  destruct (toggleAll_selects_every_header st [lit "id"; lit "answer"]
              [[lit "1"; lit "yes"]] eq_refl eq_refl eq_refl)
    as (st' & Hst' & _ & _ & _ & Hon).
  exists st'. split; [done|]. split; [|done].
  injection Hst' as <-. reflexivity.
Defined.
End SelectionFacts.

(** ** FilePreview: loading the preview *)
Section FetchFacts.
Import Models FilePreview PreviewData FilePreviewPage.
Context (readFile : jsstring → option jsstring).
Context (parseCSVLine : jsstring → jsstring → outcome (list jsstring)).

Abbreviation fetch := (fetchPreviewData readFile parseCSVLine).
Abbreviation parse := (parse_lines parseCSVLine).

Lemma split_lines_nonempty (input : jsstring) : split_lines input ≠ [].
Proof.
  induction input as [|c input IH]; cbn; [done|].
  case_bool_decide; [done|]. by destruct (split_lines input).
Qed.

Lemma parse_lines_lookup (delim : jsstring) (lines : list jsstring)
    (parsed : list (list jsstring)) :
  parse delim lines = Done parsed →
  length parsed = length lines
  ∧ ∀ i line, lines !! i = Some line →
      ∃ row, parsed !! i = Some row ∧ parseCSVLine line delim = Done row.
Proof.
  revert parsed. induction lines as [|l lines IH]; intros parsed; cbn.
  { intros [= <-]. split; [done|]. by intros i line ?. }
  destruct (parseCSVLine l delim) as [row|] eqn:Hrow; [|done].
  destruct (parse delim lines) as [rows|]; [|done].
  intros [= <-]. destruct (IH rows eq_refl) as [Hlen Hrows].
  split; [cbn; by rewrite Hlen|].
  intros [|i] line; cbn.
  - intros [= <-]. by exists row.
  - apply Hrows.
Qed.

Lemma cell_take (data : list (list jsstring)) (n i j : nat) (v : jsstring) :
  cell (take n data) i j = Some v → (i < n)%nat ∧ cell data i j = Some v.
Proof.
  unfold cell. destruct (decide (i < n)%nat).
  - by rewrite lookup_take_lt.
  - by rewrite lookup_take_ge by lia.
Qed.

(** X5. [fetchPreviewData] only ever writes [previewData]; without a delimiter,
    without a file path, when the file cannot be read or a line cannot be
    parsed it writes nothing at all. *)
Theorem fetchPreviewData_fails_quietly (st : State) :
  filePath (fetch st) = filePath st
  ∧ hasHeader (fetch st) = hasHeader st
  ∧ delimiter (fetch st) = delimiter st
  ∧ selectedColumns (fetch st) = selectedColumns st
  ∧ (truthy (delimiter st) = false ∨ truthy (filePath st) = false
     → fetch st = st)
  ∧ (∀ path, filePath st = Some path → readFile path = None → fetch st = st)
  ∧ (∀ path input delim,
       filePath st = Some path → readFile path = Some input →
       delimiter st = Some delim →
       parse delim (take 100 (split_lines input)) = TypeError →
       fetch st = st).
Proof.
  unfold fetchPreviewData.
  destruct st as [[[|p ps]|] hh [[|d ds]|] sel pd]; cbn;
    try (repeat split; (done || by intros [?|?] || by intros ? [=])).
  assert (Htake : ∀ lines : list jsstring,
            take (if bool_decide (100 < length lines)%nat
                  then 100%nat else length lines) lines = take 100 lines).
  { intros lines. case_bool_decide; [done|].
    by rewrite !take_ge by lia. }
  destruct (readFile (p :: ps)) as [input|] eqn:Hread; cbn.
  2:{ repeat split; (done || by intros [?|?] || by intros ? [=]). }
  rewrite Htake.
  destruct (parse (d :: ds) (take 100 (split_lines input))) as [parsed|]
    eqn:Hparsed; cbn.
  - repeat split; try done.
    + by intros [?|?].
    + intros path [= <-]. by rewrite Hread.
    + intros path input' delim [= <-] Hread' [= <-].
      rewrite Hread in Hread'. injection Hread' as <-. by rewrite Hparsed.
  - repeat split; (done || by intros [?|?] || by intros ? [=]).
Qed.

(** X6. A fetch that goes through shows at most the first eleven of the first
    hundred lines, never zero rows. Every row has as many cells as
    [parseCSVLine] returned for its line, a non-empty parsed cell is shown
    as it is, and any other non-empty cell shown was parsed from the same
    column of one of those hundred lines. Toggle all cannot throw
    afterwards. *)
Theorem fetchPreviewData_shows_first_lines (st : State)
    (path delim input : jsstring) (parsed : list (list jsstring)) :
  filePath st = Some path → path ≠ [] →
  delimiter st = Some delim → delim ≠ [] →
  readFile path = Some input →
  parse delim (take 100 (split_lines input)) = Done parsed →
  let shown := previewData (fetch st) in
  shown = take 11 (fill parsed)
  ∧ (1 ≤ length shown ≤ 11)%nat
  ∧ (length parsed ≤ 100)%nat
  ∧ (∀ i line, (i < 11)%nat → split_lines input !! i = Some line →
       ∃ row row', parseCSVLine line delim = Done row
                   ∧ shown !! i = Some row' ∧ length row' = length row
                   ∧ ∀ j v, row !! j = Some v → v ≠ [] → row' !! j = Some v)
  ∧ (∀ i j v, cell shown i j = Some v → v ≠ [] →
       ∃ k, (k < 100)%nat ∧ cell parsed k j = Some v)
  ∧ toggleAll (fetch st) ≠ TypeError.
Proof.
  intros Hpath Hp Hdelim Hd Hread Hparsed.
  assert (Hfetch : fetch st
                   = setPreviewData (take 11 (fill parsed)) st).
  { unfold fetchPreviewData. rewrite Hdelim, Hpath.
    destruct delim as [|d ds]; [done|]. destruct path as [|p ps]; [done|].
    rewrite Hread.
    replace (take (if bool_decide (100 < length (split_lines input))%nat
                   then 100%nat else length (split_lines input))
               (split_lines input))
      with (take 100 (split_lines input)).
    2:{ case_bool_decide; [done|]. by rewrite !take_ge by lia. }
    by rewrite Hparsed. }
  rewrite Hfetch. cbn.
  destruct (parse_lines_lookup _ _ _ Hparsed) as [Hlen Hrows].
  destruct (fill_related_fill parsed) as (filled & Hfilled & Hrelated).
  rewrite Hfilled.
  destruct (fill_related_shape parsed filled Hrelated) as [Hflen Hfrows].
  assert (Hlines : (1 ≤ length (take 100 (split_lines input)))%nat).
  { pose proof (split_lines_nonempty input).
    rewrite length_take. destruct (split_lines input); [done|cbn; lia]. }
  assert (Hparsed100 : (length parsed ≤ 100)%nat).
  { rewrite Hlen, length_take. lia. }
  split; [done|].
  split; [rewrite length_take, Hflen; lia|].
  split; [done|].
  split.
  { intros i line Hi Hline.
    destruct (Hrows i line) as (row & Hrow & Hparse).
    { by rewrite lookup_take_lt by lia. }
    destruct (Hfrows i row Hrow) as (row' & Hrow' & Hlen').
    exists row, row'. split; [done|].
    split; [by rewrite lookup_take_lt|]. split; [done|].
    intros j v Hv Hne.
    destruct (fill_related_cells parsed filled i j Hrelated) as (Hkeep & _ & _).
    specialize (Hkeep v). unfold cell in Hkeep.
    rewrite Hrow, Hrow' in Hkeep. by apply Hkeep. }
  split.
  { intros i j v [_ Hv]%cell_take Hne.
    destruct (fill_related_cells parsed filled i j Hrelated) as (_ & Hfrom & _).
    destruct (Hfrom v Hv Hne) as [k Hk]. exists k. split; [|done].
    unfold cell in Hk. destruct (parsed !! k) eqn:Hrow; [|done].
    apply lookup_lt_Some in Hrow. lia. }
  unfold toggleAll, headers; cbn.
  destruct (take 11 (parsedData filled)) as [|row rest] eqn:Htake.
  { apply (f_equal length) in Htake.
    rewrite length_take, Hflen, Hlen in Htake.
    change (length (@nil (list jsstring))) with 0%nat in Htake. lia. }
  case_bool_decide; [|done]. by destruct (hasHeader st).
Qed.
End FetchFacts.

Lemma fetchPreviewData_shows_first_lines_witness :
  let readFile := λ _ : jsstring, Some (lit "id,answer") in
  let parseCSVLine := λ line _ : jsstring, Done [line] in
  let st := {| FilePreview.filePath := Some (lit "/tmp/a.csv");
               FilePreview.hasHeader := true;
               FilePreview.delimiter := Some (lit ",");
               FilePreview.selectedColumns := [];
               FilePreview.previewData := [] |} in
  FilePreview.previewData (PreviewData.fetchPreviewData readFile parseCSVLine st)
  = [[lit "id,answer"]]
  ∧ FilePreview.toggleAll
      (PreviewData.fetchPreviewData readFile parseCSVLine st) ≠ TypeError.
Proof.
  intros readFile parseCSVLine st.
  split; [vm_compute; reflexivity|].
  apply (fetchPreviewData_shows_first_lines readFile parseCSVLine st
           (lit "/tmp/a.csv") (lit ",") (lit "id,answer") [[lit "id,answer"]]);
    (reflexivity || discriminate).
Defined.

(** ** FilePreview: what a whole visit to the page keeps true *)
Section PageFacts.
Import Models FilePreview PreviewData FilePreviewPage.
Context `{JsNumber}.
Context (readFile : jsstring → option jsstring).
Context (parseCSVLine : jsstring → jsstring → outcome (list jsstring)).
Context (findDelimiter : list jsstring → outcome (option jsstring)).
Context (parseFileSettings : jsstring → outcome FileSettings).

Abbreviation page_handle :=
  (handle readFile parseCSVLine findDelimiter parseFileSettings).
Abbreviation page_session :=
  (session readFile parseCSVLine findDelimiter parseFileSettings).
Abbreviation tidy_event := (brings_tidy_columns parseFileSettings).

Lemma toggleColumn_tidy (st : State) (i : nat) :
  tidy_columns (selectedColumns st) →
  tidy_columns (selectedColumns (toggleColumn (Z.of_nat i) st)).
Proof.
  intros [Hnd Hpos]. unfold toggleColumn.
  case_bool_decide as Hin; cbn.
  - split; [by apply NoDup_filter|].
    apply Forall_forall. intros c [_ Hc]%list_elem_of_filter.
    by eapply Forall_forall in Hpos.
  - split.
    + apply NoDup_app. split; [done|]. split; [|apply NoDup_singleton].
      by intros c Hc ->%list_elem_of_singleton.
    + apply Forall_app. split; [done|]. apply Forall_singleton. lia.
Qed.

Lemma toggleAll_tidy (st st' : State) :
  toggleAll st = Done st' → tidy_columns (selectedColumns st').
Proof.
  unfold toggleAll. case_bool_decide.
  - destruct (headers st) as [hs|]; [|done]. intros [= <-]; cbn.
    split; [apply keys_NoDup|].
    apply Forall_forall. intros c Hc%keys_spec. lia.
  - intros [= <-]; cbn. split; [apply NoDup_nil_2 | done].
Qed.

Lemma toggleAll_keeps_preview (st st' : State) :
  toggleAll st = Done st' → previewData st' = previewData st.
Proof.
  unfold toggleAll. case_bool_decide.
  - destruct (headers st); [|done]. by intros [= <-].
  - by intros [= <-].
Qed.

Lemma fetch_preview_short (st : State) :
  (length (previewData st) ≤ 11)%nat →
  (length (previewData (fetchPreviewData readFile parseCSVLine st)) ≤ 11)%nat.
Proof.
  intros Hst. unfold fetchPreviewData.
  destruct (delimiter st) as [[|d ds]|]; [done| |done].
  destruct (filePath st) as [[|p ps]|]; [done| |done].
  destruct (readFile (p :: ps)); [|done].
  destruct (parse_lines _ _ _); [|done].
  cbn. rewrite length_take. unfold exampleLineCount. lia.
Qed.

Lemma fetch_keeps_selection (st : State) :
  selectedColumns (fetchPreviewData readFile parseCSVLine st)
  = selectedColumns st.
Proof.
  unfold fetchPreviewData.
  destruct (delimiter st) as [[|d ds]|]; [done| |done].
  destruct (filePath st) as [[|p ps]|]; [done| |done].
  destruct (readFile (p :: ps)); [|done].
  by destruct (parse_lines _ _ _).
Qed.

Lemma page_rows_handle (e : Event) (st st' : State)
    (sent : list FileSettings) :
  (length (previewData st) ≤ 11)%nat →
  page_handle e st = Some (st', sent) →
  (length (previewData st') ≤ 11)%nat
  ∧ Forall (λ settings,
              Models.delimiter settings ≠ []
              ∧ selected_columns settings ≠ []) sent.
Proof.
  intros Hrows.
  destruct e as [path | received | | | checked | value | i | |]; cbn.
  - by intros [= <- <-].
  - unfold onReceiveCurrentRun. destruct received as [r|]; cbn.
    + destruct (parseFileSettings (file_settings r)) as [settings|];
        by intros [= <- <-].
    + by intros [= <- <-].
  - intros [= <- <-]. split; [|done]. unfold findBestDelimiter.
    destruct (filePath st) as [[|p ps]|]; [done| |done].
    destruct (readFile (p :: ps)); [|done].
    by destruct (findDelimiter _).
  - intros [= <- <-]. split; [|done]. by apply fetch_preview_short.
  - destruct (controls_shown st); [|done]. by intros [= <- <-].
  - destruct (controls_shown st); [|done]. by intros [= <- <-].
  - destruct (_ && _); [|done]. intros [= <- <-]. split; [|done].
    unfold toggleColumn. by case_bool_decide.
  - destruct (controls_shown st); [|done].
    destruct (toggleAll st) as [st1|] eqn:Hall; intros [= <- <-]; [|done].
    split; [|done]. by rewrite (toggleAll_keeps_preview _ _ Hall).
  - unfold continueClick. destruct (negb _); [done|].
    case_bool_decide as Hsel; [done|]. intros [= <- <-].
    split; [done|]. apply Forall_singleton; cbn.
    split; [by apply or_else_truthy|].
    intros Hnil. rewrite Hnil in Hsel. cbn in Hsel. lia.
Qed.

Lemma page_rows_session (es : list Event) :
  ∀ (st0 st : State) (sent : list FileSettings),
    (length (previewData st0) ≤ 11)%nat →
    page_session es st0 = Some (st, sent) →
    (length (previewData st) ≤ 11)%nat
    ∧ Forall (λ settings,
                Models.delimiter settings ≠ []
                ∧ selected_columns settings ≠ []) sent.
Proof.
  induction es as [|e es IH]; intros st0 st sent Hst0; cbn.
  { by intros [= <- <-]. }
  destruct (page_handle e st0) as [[st1 sent1]|] eqn:Hh; [|done].
  destruct (page_rows_handle e st0 st1 sent1 Hst0 Hh) as [Hst1 Hsent1].
  destruct (page_session es st1) as [[st2 sent2]|] eqn:Hs; [|done].
  intros [= <- <-].
  destruct (IH st1 st2 sent2 Hst1 Hs) as [Hst2 Hsent2].
  split; [done|]. by apply Forall_app.
Qed.

Lemma page_invariant_handle (e : Event) (st st' : State)
    (sent : list FileSettings) :
  tidy_event e → page_invariant st →
  page_handle e st = Some (st', sent) →
  page_invariant st'
  ∧ Forall (λ settings,
              Models.delimiter settings ≠ []
              ∧ selected_columns settings ≠ []
              ∧ tidy_columns (selected_columns settings)) sent.
Proof.
  intros He [Hrows Htidy].
  destruct e as [path | received | | | checked | value | i | |]; cbn.
  - by intros [= <- <-].
  - unfold onReceiveCurrentRun. destruct received as [r|]; cbn.
    + destruct (parseFileSettings (file_settings r)) as [settings|] eqn:Hs.
      * intros [= <- <-]. split; [|done]. split; [done|]. by apply He.
      * by intros [= <- <-].
    + by intros [= <- <-].
  - intros [= <- <-]. split; [|done]. unfold findBestDelimiter.
    destruct (filePath st) as [[|p ps]|]; [done| |done].
    destruct (readFile (p :: ps)); [|done].
    by destruct (findDelimiter _).
  - intros [= <- <-]. split; [|done]. split; [by apply fetch_preview_short|].
    by rewrite fetch_keeps_selection.
  - destruct (controls_shown st); [|done]. by intros [= <- <-].
  - destruct (controls_shown st); [|done]. by intros [= <- <-].
  - destruct (_ && _); [|done]. intros [= <- <-]. split; [|done].
    split; [|by apply toggleColumn_tidy].
    unfold toggleColumn. by case_bool_decide.
  - destruct (controls_shown st); [|done].
    destruct (toggleAll st) as [st1|] eqn:Hall; intros [= <- <-]; [|done].
    split; [|done]. split; [|by eapply toggleAll_tidy].
    by rewrite (toggleAll_keeps_preview _ _ Hall).
  - unfold continueClick. destruct (negb _); [done|].
    case_bool_decide as Hsel; [done|]. intros [= <- <-].
    split; [done|]. apply Forall_singleton; cbn.
    split; [by apply or_else_truthy|]. split; [|done].
    intros Hnil. rewrite Hnil in Hsel. cbn in Hsel. lia.
Qed.

(** X11. However the page is used, it never shows more than ten data rows,
    and everything it sends has a non-empty delimiter and a non-empty
    selection. As long as the stored settings it loads have tidy columns,
    the selection never holds an index twice, and everything it sends lists
    whole indices from zero up without repeats. *)
Theorem page_sends_tidy_settings (es : list Event) (st : State)
    (sent : list FileSettings) :
  page_session es initial = Some (st, sent) →
  (length (displayData st) ≤ 10)%nat
  ∧ Forall (λ settings,
              Models.delimiter settings ≠ []
              ∧ selected_columns settings ≠ []) sent
  ∧ (Forall tidy_event es →
     NoDup (selectedColumns st)
     ∧ Forall (λ settings,
                 NoDup (selected_columns settings)
                 ∧ Forall (λ c, 0 ≤ c) (selected_columns settings)) sent).
Proof.
  intros Hsession.
  destruct (page_rows_session es initial st sent) as [Hrows Hfilled];
    [cbn; lia | done |].
  split.
  { unfold displayData. destruct (hasHeader st).
    - rewrite length_drop. lia.
    - rewrite length_take. unfold exampleLineCount. lia. }
  split; [done|].
  intros Hes.
  assert (Hgen : ∀ st0, page_invariant st0 →
            page_session es st0 = Some (st, sent) →
            page_invariant st
            ∧ Forall (λ settings,
                        Models.delimiter settings ≠ []
                        ∧ selected_columns settings ≠ []
                        ∧ tidy_columns (selected_columns settings)) sent).
  { clear Hsession Hrows Hfilled. revert sent.
    induction es as [|e es IH]; intros sent st0 Hst0; cbn.
    { by intros [= <- <-]. }
    apply Forall_cons in Hes as [He Hes].
    destruct (page_handle e st0) as [[st1 sent1]|] eqn:Hh; [|done].
    destruct (page_invariant_handle e st0 st1 sent1 He Hst0 Hh)
      as [Hst1 Hsent1].
    destruct (page_session es st1) as [[st2 sent2]|] eqn:Hs; [|done].
    intros [= <- <-].
    destruct (IH Hes sent2 st1 Hst1 Hs) as [Hst2 Hsent2].
    split; [done|]. by apply Forall_app. }
  destruct (Hgen initial) as [[_ [Hnd Hpos]] Hsent]; [|done|].
  { split; [cbn; lia|]. split; [apply NoDup_nil_2 | done]. }
  split; [done|].
  eapply Forall_impl; [exact Hsent|].
  intros settings (_ & _ & Htidy). exact Htidy.
Qed.
(** X12. Reopening a stored run and letting the delimiter effect run keeps
    the stored header flag and columns but not the stored delimiter:
    Continue then sends the delimiter inferred from the file (or "," when
    none was inferred), whatever the stored settings said. *)
Theorem reopened_run_sends_inferred_delimiter (st : State) (r : Run)
    (settings : FileSettings) (input : jsstring) (best : option jsstring) :
  parseFileSettings (file_settings r) = Done settings →
  file_path r ≠ [] →
  selected_columns settings ≠ [] →
  readFile (file_path r) = Some input →
  findDelimiter (split_lines input) = Done best →
  ∃ st1,
    onReceiveCurrentRun parseFileSettings (Some r) st = Done st1
    ∧ delimiter st1 = Some (Models.delimiter settings)
    ∧ delimiter (findBestDelimiter readFile findDelimiter st1) = best
    ∧ continueClick (findBestDelimiter readFile findDelimiter st1)
      = Some {| Models.delimiter := or_else best (lit ",");
                has_header := has_header settings;
                selected_columns := selected_columns settings |}.
Proof.
  intros Hparse Hpath Hsel Hread Hbest.
  unfold onReceiveCurrentRun. rewrite Hparse.
  eexists. split; [reflexivity|]. split; [reflexivity|].
  unfold findBestDelimiter; cbn.
  destruct (file_path r) as [|p ps] eqn:Hp; [done|].
  rewrite Hread, Hbest; cbn. split; [done|].
  unfold continueClick; cbn.
  destruct (selected_columns settings) as [|c cols]; [done|].
  rewrite bool_decide_eq_false_2; [done|]. cbn. lia.
Qed.
End PageFacts.

Lemma page_sends_tidy_settings_witness :
  let readFile := λ _ : jsstring, Some (lit "id,answer") in
  let parseCSVLine := λ line _ : jsstring, Done [line; line] in
  let findDelimiter := λ _ : list jsstring, Done (Some (lit ",")) in
  let stored := {| Models.delimiter := lit ";"; Models.has_header := false;
                   Models.selected_columns := [1] |} in
  let parseFileSettings := λ _ : jsstring, Done stored in
  let es := [FilePreviewPage.ReceiveCurrentRun (Some run_abc);
             FilePreviewPage.RunFindBestDelimiter;
             FilePreviewPage.RunFetchPreviewData;
             FilePreviewPage.ClickColumn 0;
             FilePreviewPage.ClickContinue] in
  ∃ st,
    FilePreviewPage.session (H := tick_numbers) readFile parseCSVLine
      findDelimiter parseFileSettings es FilePreviewPage.initial
    = Some (st, [{| Models.delimiter := lit ",";
                    Models.has_header := false;
                    Models.selected_columns := [1; 0] |}])
    ∧ (length (FilePreview.displayData st) ≤ 10)%nat
    ∧ NoDup (FilePreview.selectedColumns st).
Proof.
  intros readFile parseCSVLine findDelimiter stored parseFileSettings es.
  eexists. split; [vm_compute; reflexivity|].
  edestruct (page_sends_tidy_settings (H := tick_numbers) readFile
               parseCSVLine findDelimiter parseFileSettings es)
    as (Hrows & _ & Htidy); [vm_compute; reflexivity|].
  split; [exact Hrows|].
  apply Htidy. apply Forall_cons. split; [|by repeat apply Forall_cons_2].
  intros settings [= <-]. split; [apply NoDup_singleton|].
  apply Forall_singleton. lia.
Defined.

Lemma reopened_run_sends_inferred_delimiter_witness :
  let readFile := λ _ : jsstring, Some (lit "id,answer") in
  let findDelimiter := λ _ : list jsstring, Done (Some (lit ",")) in
  let stored := {| Models.delimiter := lit ";"; Models.has_header := false;
                   Models.selected_columns := [1] |} in
  let parseFileSettings := λ _ : jsstring, Done stored in
  ∃ st1,
    FilePreviewPage.onReceiveCurrentRun parseFileSettings (Some run_abc)
      FilePreviewPage.initial = Done st1
    ∧ FilePreview.delimiter st1 = Some (lit ";")
    ∧ FilePreview.continueClick
        (PreviewData.findBestDelimiter readFile findDelimiter st1)
      = Some {| Models.delimiter := lit ","; Models.has_header := false;
                Models.selected_columns := [1] |}.
Proof.
  intros readFile findDelimiter stored parseFileSettings.
  destruct (reopened_run_sends_inferred_delimiter readFile findDelimiter
              parseFileSettings FilePreviewPage.initial run_abc stored
              (lit "id,answer") (Some (lit ",")))
    as (st1 & Hst1 & Hstored & _ & Hsent);
    [reflexivity | discriminate | discriminate | reflexivity | reflexivity |].
  exists st1. split; [exact Hst1|]. split; [exact Hstored | exact Hsent].
Defined.

(** ** Results: which run and which names *)
Section RenameFacts.
Import Models.
Context `{JsNumber}.

Lemma handle_stays_with_known_runs
    (known_id : UUID → Prop) (known_name : jsstring → Prop)
    (e : Results.Event) (st st' : Results.State)
    (calls : list Results.IpcCall) :
  (∀ m, e = Results.ReceiveCurrentRun m →
        known_id (id (run m)) ∧ known_name (name (run m))) →
  (∀ r, Results.run st = Some r → known_id (id r)) →
  (∀ n, Results.runName st = Some n → known_name n) →
  Results.handle e st = Some (Done (st', calls)) →
  (∀ r, Results.run st' = Some r → known_id (id r))
  ∧ (∀ rid n, Results.database_updateRunName rid n ∈ calls → known_id rid)
  ∧ (∀ n, Results.runName st' = Some n →
          known_name n ∨ ∃ rid, Results.database_updateRunName rid n ∈ calls).
Proof.
  intros He Hrun Hname.
  assert (Hquiet : (st', calls) = (st', []) →
            Results.run st' = Results.run st →
            Results.runName st' = Results.runName st →
            (∀ r, Results.run st' = Some r → known_id (id r))
            ∧ (∀ rid n, Results.database_updateRunName rid n ∈ calls →
                        known_id rid)
            ∧ (∀ n, Results.runName st' = Some n →
                    known_name n
                    ∨ ∃ rid, Results.database_updateRunName rid n ∈ calls)).
  { intros [= ->] Hr Hn. rewrite Hr, Hn.
    split; [done|]. split; [by intros ? ? ?%elem_of_nil|]. by left; auto. }
  assert (Hsent : ∀ v,
            Results.updateRunName v st = Done (st', calls) →
            (∀ r, Results.run st' = Some r → known_id (id r))
            ∧ (∀ rid n, Results.database_updateRunName rid n ∈ calls →
                        known_id rid)
            ∧ (∀ n, Results.runName st' = Some n →
                    known_name n
                    ∨ ∃ rid, Results.database_updateRunName rid n ∈ calls)).
  { intros v. unfold Results.updateRunName.
    destruct (Results.isValidRunName st); cbn.
    - destruct (Results.run st) as [r|] eqn:Hr; [|done].
      intros [= <- <-]. cbn.
      split; [exact Hrun|].
      split; [intros rid n [= -> ->]%list_elem_of_singleton; by apply Hrun|].
      intros n [= <-]. right. exists (id r). by left.
    - intros [= <- <-]. by apply Hquiet. }
  destruct e as [m | | v | | |]; cbn; unfold Results.editing.
  - intros [= <- <-]. destruct (He m eq_refl) as [? ?].
    split; [by intros r [= <-]|]. split; [by intros ? ? ?%elem_of_nil|].
    intros n [= <-]. by left.
  - destruct (_ && _); [|done]. intros [= <- <-]. by apply Hquiet.
  - destruct (_ && _); [|done]. intros [= <- <-]. by apply Hquiet.
  - destruct (_ && _); [|done].
    destruct (Results.runNameInput st) as [v|]; [|done].
    intros [= Hv]. by apply (Hsent v).
  - destruct (_ && _); [|done].
    destruct (Results.run st) as [r|] eqn:Hr; [|done].
    intros [= <- <-]. apply Hquiet; [done | by cbn | done].
  - destruct (_ && _); [|done].
    destruct (Results.runNameInput st) as [v|]; [|done].
    intros [= Hv]. by apply (Hsent v).
Qed.

Lemma session_stays_with_known_runs (known_id : UUID → Prop)
    (es : list Results.Event) :
  ∀ (known_name : jsstring → Prop) (st st' : Results.State)
    (calls : list Results.IpcCall),
    (∀ m, Results.ReceiveCurrentRun m ∈ es →
          known_id (id (run m)) ∧ known_name (name (run m))) →
    (∀ r, Results.run st = Some r → known_id (id r)) →
    (∀ n, Results.runName st = Some n → known_name n) →
    Results.session es st = Some (st', calls) →
    (∀ rid n, Results.database_updateRunName rid n ∈ calls → known_id rid)
    ∧ (∀ n, Results.runName st' = Some n →
            known_name n
            ∨ ∃ rid, Results.database_updateRunName rid n ∈ calls).
Proof.
  induction es as [|e es IH]; intros known_name st st' calls Hes Hrun Hname;
    cbn.
  { intros [= <- <-]. split; [by intros rid n ?%elem_of_nil | by left; auto]. }
  destruct (Results.handle e st) as [[[st1 calls1]|]|] eqn:Hh; [|done..].
  destruct (Results.session es st1) as [[st2 calls2]|] eqn:Hs; [|done].
  intros [= <- <-].
  destruct (handle_stays_with_known_runs known_id known_name e st st1 calls1)
    as (Hrun1 & Hcalls1 & Hname1); [| done | done | done |].
  { intros m ->. apply Hes. by left. }
  destruct (IH (λ n, known_name n
                     ∨ ∃ rid, Results.database_updateRunName rid n ∈ calls1)
              st1 st2 calls2) as [Hcalls2 Hname2];
    [| done | exact Hname1 | done |].
  { intros m Hm. destruct (Hes m) as [? ?]; [by right|]. by split; [|left]. }
  split.
  - intros rid n [?|?]%elem_of_app; eauto.
  - intros n Hn. destruct (Hname2 n Hn) as [[?|[rid ?]] | [rid ?]];
      [by left | right; exists rid; apply elem_of_app; by left
      | right; exists rid; apply elem_of_app; by right].
Qed.

(** X14. The page only ever renames a run the broker has shown it, and the name
    in its heading is always one the broker sent with a run or one the page
    itself sent in a rename. *)
Theorem renames_target_received_runs (es : list Results.Event)
    (st : Results.State) (calls : list Results.IpcCall) :
  Results.session es Results.initial = Some (st, calls) →
  (∀ rid n, Results.database_updateRunName rid n ∈ calls →
            ∃ m, Results.ReceiveCurrentRun m ∈ es ∧ id (run m) = rid)
  ∧ (∀ n, Results.runName st = Some n →
          (∃ m, Results.ReceiveCurrentRun m ∈ es ∧ name (run m) = n)
          ∨ ∃ rid, Results.database_updateRunName rid n ∈ calls).
Proof.
  intros Hsession.
  apply (session_stays_with_known_runs
           (λ rid, ∃ m, Results.ReceiveCurrentRun m ∈ es ∧ id (run m) = rid)
           es
           (λ n, ∃ m, Results.ReceiveCurrentRun m ∈ es ∧ name (run m) = n)
           Results.initial st calls); [| done | done | done].
  intros m Hm. split; by exists m.
Qed.
End RenameFacts.

Lemma renames_target_received_runs_witness :
  ∃ st,
    Results.session
      [Results.ReceiveCurrentRun current_run_abc; Results.ClickPencil;
       Results.Change (lit "xyz"); Results.KeyEnter]
      Results.initial
    = Some (st, [Results.database_updateRunName (Models.id run_abc) (lit "xyz")])
    ∧ ∃ m : @Models.CurrentRunMessage tick_numbers,
        Models.id (Models.run m) = Models.id run_abc.
Proof.
  eexists. split; [vm_compute; reflexivity|].
  destruct (renames_target_received_runs
              [Results.ReceiveCurrentRun current_run_abc; Results.ClickPencil;
               Results.Change (lit "xyz"); Results.KeyEnter]
              _ _ eq_refl) as [Hids _].
  destruct (Hids (Models.id run_abc) (lit "xyz")) as (m & _ & Hm); [by left|].
  by exists m.
Defined.

(** ** Results: the Run Duration card *)
Section DurationFacts.
Import Models ResultsView.
Context `{JsNumber}.
Context (iterateRecord : list (ClusteringStep.t * number)
                         → list (ClusteringStep.t * number)).
Context (share : number → number → number).

Abbreviation rows_of := (durationRows iterateRecord share).
Abbreviation row_of := (durationRow iterateRecord share).

Lemma message_of_total (s : ClusteringStep.t) :
  ∃ message, message_of s = Some message ∧ message ≠ "".
Proof. destruct s; eexists; (split; [reflexivity | discriminate]). Qed.

Lemma collect_Done {A} (results : list (outcome A)) :
  (∀ r, r ∈ results → r ≠ TypeError) →
  ∃ l, collect results = Done l ∧ Done <$> l = results.
Proof.
  induction results as [|[a|] results IH]; intros Hall; cbn.
  - by exists [].
  - destruct IH as (l & -> & Hl); [intros r Hr; apply Hall; by right|].
    exists (a :: l). split; [done|]. cbn. by rewrite Hl.
  - destruct (Hall TypeError); [by left | done].
Qed.

Lemma collect_TypeError {A} (results : list (outcome A)) :
  TypeError ∈ results → collect results = TypeError.
Proof.
  induction results as [|[a|] results IH]; cbn.
  - by intros ?%elem_of_nil.
  - intros [[=] | Hin]%elem_of_cons. by rewrite IH.
  - done.
Qed.

Lemma durationRow_after_first (ts : Timesteps) (index : nat)
    (entry : ClusteringStep.t * number) :
  iterateRecord (steps ts) !! S index = Some entry →
  row_of ts (S index) entry ≠ TypeError.
Proof.
  intros Hentry. unfold durationRow. case_bool_decide; [done|].
  destruct (lookup_lt_is_Some_2 (iterateRecord (steps ts)) index) as [p ->];
    [|done].
  apply lookup_lt_Some in Hentry. lia.
Qed.

(** X13. The card throws exactly when the first entry of the steps record is not
    the [start] step. Otherwise it renders one slot per entry, empty for
    [start] entries; every other slot shows the time since the entry before
    it, under a label that is always found in [progressionMessages]. *)
Theorem durationRows_throw_iff_first_not_start (ts : Timesteps) :
  (rows_of ts = TypeError
   ↔ ∃ s t rest, iterateRecord (steps ts) = (s, t) :: rest
                 ∧ s ≠ ClusteringStep.start)
  ∧ ∀ rows, rows_of ts = Done rows →
      length rows = length (iterateRecord (steps ts))
      ∧ ∀ i s t, iterateRecord (steps ts) !! i = Some (s, t) →
          if bool_decide (s = ClusteringStep.start) then rows !! i = Some None
          else ∃ before s' t' message,
                 i = S before
                 ∧ iterateRecord (steps ts) !! before = Some (s', t')
                 ∧ message ≠ ""
                 ∧ rows !! i
                   = Some (Some {| key := s; label := Some message;
                                   duration := num_sub t t';
                                   value := share (num_sub t t')
                                              (total_duration ts);
                                   max := total_duration ts |}).
Proof.
  unfold durationRows.
  assert (Hthrow : collect (imap (row_of ts) (iterateRecord (steps ts)))
                   = TypeError
                   ↔ ∃ s t rest, iterateRecord (steps ts) = (s, t) :: rest
                                 ∧ s ≠ ClusteringStep.start).
  { split.
    - intros Hcollect.
      destruct (iterateRecord (steps ts)) as [|[s t] rest] eqn:Hentries;
        [done|].
      exists s, t, rest. split; [done|]. intros ->.
      destruct (collect_Done
                  (imap (row_of ts) ((ClusteringStep.start, t) :: rest)))
        as (l & Hl & _); [|by rewrite Hl in Hcollect].
      intros r (i & e & -> & Hi)%elem_of_lookup_imap.
      destruct i as [|i]; [by injection Hi as <-|].
      apply durationRow_after_first. by rewrite Hentries.
    - intros (s & t & rest & Hentries & Hs).
      apply collect_TypeError. rewrite Hentries; cbn.
      apply elem_of_cons. left.
      unfold durationRow; cbn. by rewrite bool_decide_eq_false_2. }
  split; [exact Hthrow|].
  intros rows Hrows.
  destruct (collect_Done (imap (row_of ts) (iterateRecord (steps ts))))
    as (l & Hl & Hmap).
  { intros r Hr ->. apply collect_TypeError in Hr. by rewrite Hr in Hrows. }
  rewrite Hl in Hrows. injection Hrows as <-.
  split.
  { by rewrite <- (length_fmap Done), Hmap, length_imap. }
  intros i s t Hi.
  assert (Hrow : Done <$> l !! i = Some (row_of ts i (s, t))).
  { by rewrite <- list_lookup_fmap, Hmap, list_lookup_imap, Hi. }
  unfold durationRow in Hrow; cbn in Hrow.
  case_bool_decide as Hs.
  - destruct (l !! i) as [r|]; [|done]. by injection Hrow as ->.
  - destruct i as [|before].
    { destruct (l !! 0%nat); done. }
    destruct (iterateRecord (steps ts) !! before) as [[s' t']|] eqn:Hbefore.
    2:{ destruct (l !! S before); done. }
    destruct (message_of_total s) as (message & Hmessage & Hne).
    exists before, s', t', message. cbn.
    split; [done|]. split; [done|]. split; [done|].
    rewrite Hmessage in Hrow.
    destruct (l !! S before) as [r|]; [|done]. by injection Hrow as ->.
Qed.
End DurationFacts.

(** ** The channel tables *)

Lemma before_colon_prefix (type rest : string) :
  Channels.before_colon type = type →
  Channels.before_colon (type +:+ ":" +:+ rest) = type.
Proof.
  induction type as [|c type IH]; [reflexivity|].
  change (String c type +:+ ":" +:+ rest)
    with (String c (type +:+ ":" +:+ rest)).
  cbn [Channels.before_colon]. case_bool_decide; [done|].
  intros [= Htype]. f_equal. by apply IH.
Qed.

(** X15. No two entries of [CHANNELS] carry the same channel string. Every
    string is the [CHANNEL_TYPES] value of its group, then a colon, then a
    non-empty rest; the one exception is the [CLUSTERING_PROGRESS] group,
    which has no entry in [CHANNEL_TYPES] and whose string is
    "cluster-progress", a colon and a non-empty rest. The [PROGRESS] entry of
    [CHANNEL_TYPES] names no group of [CHANNELS] and prefixes no channel
    string. *)
Theorem channel_strings_are_distinct :
  NoDup Channels.channel_strings
  ∧ (∀ group entries key channel,
       (group, entries) ∈ Channels.CHANNELS → (key, channel) ∈ entries →
       ∃ rest, rest ≠ ""
         ∧ ((∃ type, (group, type) ∈ Channels.CHANNEL_TYPES
                     ∧ channel = type +:+ ":" +:+ rest)
            ∨ (group = "CLUSTERING_PROGRESS"
               ∧ (group ∉ Channels.CHANNEL_TYPES.*1)
               ∧ channel = "cluster-progress" +:+ ":" +:+ rest)))
  ∧ ("PROGRESS", "progress") ∈ Channels.CHANNEL_TYPES
  ∧ ("PROGRESS" ∉ Channels.CHANNELS.*1)
  ∧ (∀ channel rest, channel ∈ Channels.channel_strings →
                     channel ≠ "progress" +:+ ":" +:+ rest).
Proof.
  split; [apply (bool_decide_unpack _); vm_compute; exact I|].
  split.
  { intros group entries key channel Hgroup Hentry.
    assert (Hall : Forall (λ g, Forall (λ e,
              Channels.before_colon e.2 +:+ ":" +:+ Channels.after_colon e.2
              = e.2
              ∧ Channels.after_colon e.2 ≠ ""
              ∧ ((g.1, Channels.before_colon e.2) ∈ Channels.CHANNEL_TYPES
                 ∨ (g.1 = "CLUSTERING_PROGRESS"
                    ∧ (g.1 ∉ Channels.CHANNEL_TYPES.*1)
                    ∧ Channels.before_colon e.2 = "cluster-progress")))
              g.2) Channels.CHANNELS).
    { apply (bool_decide_unpack _). vm_compute. exact I. }
    eapply Forall_forall in Hall; [|exact Hgroup].
    eapply Forall_forall in Hall; [|exact Hentry].
    cbn in Hall. destruct Hall as (Hsplit & Hrest & Hkind).
    exists (Channels.after_colon channel). split; [exact Hrest|].
    destruct Hkind as [Htype | (Hg & Hno & Hbefore)].
    - left. exists (Channels.before_colon channel). by split.
    - right. split; [exact Hg|]. split; [exact Hno|].
      by rewrite <- Hbefore. }
  split; [apply (bool_decide_unpack _); vm_compute; exact I|].
  split; [apply (bool_decide_unpack _); vm_compute; exact I|].
  intros channel rest Hin ->.
  assert (Hall : Forall (λ ch, Channels.before_colon ch ≠ "progress")
                   Channels.channel_strings).
  { apply (bool_decide_unpack _). vm_compute. exact I. }
  eapply Forall_forall in Hall; [|exact Hin].
  apply Hall. by apply before_colon_prefix.
Qed.
